(** * Task orchestration and agent selection: a shallow embedding

    This development embeds the orchestration core of the backend
    ([src/agents/orchestrator.ts], [src/agents/knowledge/seeker.ts], the
    [AIProvider] and [DatabaseManager] classes and the [tasks] table of
    [src/database/schema.sql]) and checks the properties the specification
    states about it.

    Modelling conventions.
    - JavaScript strings are [string]s of 8-bit characters; [toLowerCase]
      and [trim] act on the ASCII range only.
    - JavaScript numbers that carry scores, confidences and random draws are
      exact rationals ([Q]); IEEE rounding is not modelled.  Timestamps are
      integers ([Z], milliseconds).
    - An [async] function is a computation in the monad [M S A] below: it
      threads a state, and it either returns a value or throws.  A state
      change made before a throw stays made, as in JavaScript.
    - JavaScript runs one callback at a time, and an [async] function gives
      way to other callbacks where it awaits.  The model lets other
      callbacks run at two places: between the start of a curious
      exploration, which is not awaited, and its continuation; and while a
      processing attempt waits for the task processor.  The other awaits of
      an attempt are taken in one step with what follows them.
    - Everything outside the process (the chat-completion API, HTTP, the
      clock, the random source, the stores' availability, and the classes
      of the repository whose sources are not available) is an oracle of the
      class [World].
    - Calls to [logger] have no effect on the modelled state and are left
      out.
    - Values have the types that the sources declare for them: what
      [JSON.parse] returns where a [string[]] is declared is an array of
      strings, or the call throws.

    The first part of the properties settles what the specification states;
    the part headed "Further properties" covers what the same code does
    besides, with [KnowledgeSeeker.expandKnowledge] and
    [AgentOrchestrator.getAgentStatus] added to the embedding. *)

From Stdlib Require Import ZArith QArith Lqa String Ascii List Lia.
From stdpp Require Import base option list sorting gmap strings pretty.
Import ListNotations.

Local Open Scope string_scope.
Local Open Scope Z_scope.

(** ** JavaScript string operations *)

Module JS.

Definition lower_ascii (c : ascii) : ascii :=
  let n := nat_of_ascii c in
  if ((65 <=? n)%nat && (n <=? 90)%nat)%bool then ascii_of_nat (n + 32) else c.

(** [s.toLowerCase()] *)
Fixpoint toLowerCase (s : string) : string :=
  match s with
  | EmptyString => EmptyString
  | String c s' => String (lower_ascii c) (toLowerCase s')
  end.

(** [s.split(sep)] for a one-character separator: the pieces between the
    occurrences of [sep], empty pieces included; the empty string splits
    into one empty piece. *)
Fixpoint split (sep : ascii) (s : string) : list string :=
  match s with
  | EmptyString => [EmptyString]
  | String c s' =>
      if Ascii.eqb c sep then EmptyString :: split sep s'
      else match split sep s' with
           | piece :: pieces => String c piece :: pieces
           | [] => [String c EmptyString]
           end
  end.

(** [s.includes(kw)] *)
Fixpoint includes (s kw : string) : bool :=
  if String.prefix kw s then true
  else match s with
       | EmptyString => false
       | String _ s' => includes s' kw
       end.

(** [l.join(sep)] *)
Fixpoint join (sep : string) (l : list string) : string :=
  match l with
  | [] => EmptyString
  | [x] => x
  | x :: l' => x ++ sep ++ join sep l'
  end.

(** [s.substr(start, len)] for non-negative arguments *)
Definition substr (start len : nat) (s : string) : string :=
  String.substring start (Nat.min len (String.length s - start)) s.

Definition is_space (c : ascii) : bool :=
  let n := nat_of_ascii c in
  ((n =? 32)%nat || ((9 <=? n)%nat && (n <=? 13)%nat))%bool.

Fixpoint trimStart (s : string) : string :=
  match s with
  | String c s' => if is_space c then trimStart s' else s
  | EmptyString => EmptyString
  end.

Fixpoint trimEnd (s : string) : string :=
  match s with
  | EmptyString => EmptyString
  | String c s' =>
      match trimEnd s' with
      | EmptyString => if is_space c then EmptyString else String c EmptyString
      | t => String c t
      end
  end.

(** [s.trim()] *)
Definition trim (s : string) : string := trimEnd (trimStart s).

(** A string in a boolean position: empty is falsy. *)
Definition truthy (s : string) : bool :=
  match s with EmptyString => false | _ => true end.

(** [a || b] on strings *)
Definition or_else (a b : string) : string := if truthy a then a else b.

Definition nl : string := String (ascii_of_nat 10) EmptyString.
Definition dq : string := String (ascii_of_nat 34) EmptyString.

End JS.

(** ** Data model *)

(** A value of TypeScript type [any] that is only stored and serialised:
    the caller's task context and the task processor's result. *)
#[warnings="-register-all"] Inductive json :=
| JNull
| JBool (b : bool)
| JNum (q : Q)
| JStr (s : string)
| JArr (items : list json)
| JObj (fields : list (string * json)).

Inductive TaskStatus := pending | processing | completed | failed.

Definition TaskStatus_name (s : TaskStatus) : string :=
  match s with
  | pending => "pending"
  | processing => "processing"
  | completed => "completed"
  | failed => "failed"
  end.

Module AgentTask.
Record t := mk {
  id : string;
  userId : string;
  prompt : string;
  context : json;
  priority : Z;
  status : TaskStatus;
  createdAt : Z;
  updatedAt : Z
}.
End AgentTask.

Module KnowledgeItem.
Record t := mk {
  query : string;
  topic : string;
  content : string;
  source : string;
  confidence : Q;
  timestamp : Z;
  relatedTopics : list string
}.
End KnowledgeItem.

(** Modelled from the spec: the class [AgentPersonality] of
    [./personality/traits] is not among the sources; the specification
    describes it as an immutable tuple of trait tags, and the orchestrator
    constructs it from three of them. *)
Record AgentPersonality := mkPersonality {
  trait1 : string; trait2 : string; trait3 : string
}.

Inductive AgentStatus := idle | busy | learning.

Definition AgentStatus_eqb (a b : AgentStatus) : bool :=
  match a, b with
  | idle, idle | busy, busy | learning, learning => true
  | _, _ => false
  end.

(** An entry of [knowledgeBase] is the knowledge item spread into a new
    object whose [timestamp] and [confidence] are overwritten, hence again
    of the shape of a knowledge item. *)
Module Agent.
Record t := mk {
  id : string;
  name : string;
  personality : AgentPersonality;
  specialization : list string;
  status : AgentStatus;
  currentTask : option string;
  knowledgeBase : gmap string KnowledgeItem.t;
  curiosityLevel : Q;
  learningRate : Q
}.

Definition set_status (s : AgentStatus) (a : t) : t :=
  mk (id a) (name a) (personality a) (specialization a) s (currentTask a)
     (knowledgeBase a) (curiosityLevel a) (learningRate a).

Definition set_currentTask (c : option string) (a : t) : t :=
  mk (id a) (name a) (personality a) (specialization a) (status a) c
     (knowledgeBase a) (curiosityLevel a) (learningRate a).

Definition set_knowledgeBase (k : gmap string KnowledgeItem.t) (a : t) : t :=
  mk (id a) (name a) (personality a) (specialization a) (status a)
     (currentTask a) k (curiosityLevel a) (learningRate a).
End Agent.

(** A retrieved record before synthesis (an element of the [any[]] that
    [synthesizeKnowledge] receives; [generateAIInsights] contributes [None]
    for its [null]). *)
Module Source.
Record t := mk {
  title : string;
  content : string;
  source : string;
  url : option string;
  confidence : option Q
}.
End Source.

(** ** Exceptions and asynchronous computations *)

(** What a [throw] carries: an instance of [Error] with its message, or any
    other value. *)
Inductive exn :=
| JsError (message : string)
| JsValue (v : string).

Inductive outcome (A : Type) :=
| Ok (a : A)
| Throw (e : exn).
Arguments Ok {A} a.
Arguments Throw {A} e.

Definition M (S A : Type) : Type := S -> outcome A * S.

Definition ret {S A} (a : A) : M S A := fun s => (Ok a, s).

Definition throw {S A} (e : exn) : M S A := fun s => (Throw e, s).

Definition bind {S A B} (c : M S A) (k : A -> M S B) : M S B :=
  fun s =>
    match c s with
    | (Ok a, s') => k a s'
    | (Throw e, s') => (Throw e, s')
    end.

(** [try { c } catch (e) { h e }] *)
Definition try_catch {S A} (c : M S A) (h : exn -> M S A) : M S A :=
  fun s =>
    match c s with
    | (Ok a, s') => (Ok a, s')
    | (Throw e, s') => h e s'
    end.

Definition gets {S A} (f : S -> A) : M S A := fun s => (Ok (f s), s).

Definition modify {S} (f : S -> S) : M S unit := fun s => (Ok tt, f s).

(** A computation that cannot throw (a clock read, a random draw). *)
Definition total {S A} (f : S -> A * S) : M S A :=
  fun s => let '(a, s') := f s in (Ok a, s').

(** A pure step that may throw. *)
Definition of_outcome {S A} (o : outcome A) : M S A := fun s => (o, s).

Declare Scope js_scope.
Delimit Scope js_scope with js.
Notation "'let!' x ':=' c 'in' k" := (bind c (fun x => k))
  (at level 10, x pattern, c at level 100, k at level 200) : js_scope.
Notation "c ;; k" := (bind c (fun _ => k))
  (at level 100, k at level 200, right associativity) : js_scope.
Local Open Scope js_scope.

(** [for (const x of l) { body x }] *)
Fixpoint for_of {S A} (l : list A) (body : A -> M S unit) : M S unit :=
  match l with
  | [] => ret tt
  | x :: l' => body x ;; for_of l' body
  end.

(** ** The world outside the process *)

(** The request that [generateWithOpenAI] sends. *)
Record ChatRequest := mkChatRequest {
  model : string;
  messages : list (string * string);
  temperature : Q;
  max_tokens : Z
}.

(** The part of a chat completion that is read: for each choice, its
    [message?.content], when there is one. *)
Record ChatCompletion := mkChatCompletion {
  choices : list (option string)
}.

(** The part of the encyclopedia's page summary that is read; a missing
    [extract] is the empty string. *)
Record PageSummary := mkPageSummary {
  summary_title : string;
  extract : string;
  desktop_page : option string
}.

Record AxiosResponse := mkAxiosResponse {
  data : option PageSummary
}.

(** Modelled from the spec: the class [ContextBuilder] of
    [./context/builder] is not among the sources.  The specification
    describes the context it builds as the per-user aggregate of interests,
    interaction count, last-interaction time and free-form data; the
    orchestrator reads [userInterests] from it. *)
Record Context := mkContext {
  userInterests : option (list string);
  interactionCount : Z;
  lastInteraction : option Z;
  contextData : json
}.

(** The object that [updateUserContext] hands to the context builder. *)
Record ContextUpdate := mkContextUpdate {
  upd_interests : list string;
  upd_lastInteraction : Z;
  upd_interactionCount : Z
}.

Inductive backend := Redis | Postgres.

(** A world state [W] answers every call that leaves the process.  The
    last three groups stand for code of the repository that is not among the
    sources: they may change the world (their own stores live there) and
    they may throw, but they do not touch the agent pool, the task queue,
    the [tasks] table or the notification channel. *)
Class World (W : Type) := {
  (** [openai.chat.completions.create(request)] *)
  openai_chat_completions_create : ChatRequest -> M W ChatCompletion;
  (** [axios.get(url)] *)
  axios_get : string -> M W AxiosResponse;
  (** [encodeURIComponent(s)]; throws on a malformed string *)
  encodeURIComponent : string -> outcome string;
  (** [JSON.parse(s)] at the declared result type [string[]] *)
  JSON_parse : string -> outcome (list string);
  (** [JSON.stringify(v)] *)
  JSON_stringify : json -> string;
  (** [Math.random()] *)
  Math_random : W -> Q * W;
  (** [Date.now()], also the value of [new Date()] and of SQL [NOW()] *)
  Date_now : W -> Z * W;
  (** [x.toString(36)] *)
  Number_toString36 : Q -> string;
  (** an outage of a backing store, asked once per operation on it *)
  store_fault : backend -> W -> option exn * W;
  (** [contextBuilder.buildContext(userId, prompt)] *)
  contextBuilder_buildContext : string -> string -> M W Context;
  (** [contextBuilder.updateUserContext(userId, update)] *)
  contextBuilder_updateUserContext : string -> ContextUpdate -> M W unit;
  (** [taskProcessor.processTask(task, context, knowledge, agent)] *)
  taskProcessor_processTask :
    AgentTask.t -> Context -> list KnowledgeItem.t -> Agent.t -> M W json
}.

(** ** [AIProvider] *)

Module AIProvider.
Section with_world.
Context {W : Type} `{!World W}.

Definition generateWithOpenAI (prompt systemPrompt model : string) : M W string :=
  let! response := openai_chat_completions_create
    {| model := model;
       messages := [("system", systemPrompt); ("user", prompt)];
       temperature := 0.7;
       max_tokens := 2000 |} in
  ret (JS.or_else (default "" (mjoin (head (choices response)))) "").

Definition extractConcepts (text : string) : M W (list string) :=
  let prompt :=
    "Extract the main concepts and topics from this text. Return only a JSON array of strings: "
    ++ JS.dq ++ text ++ JS.dq in
  try_catch
    (let! response := generateWithOpenAI prompt
       "You are a concept extraction expert. Return only valid JSON."
       "gpt-3.5-turbo" in
     of_outcome (JSON_parse response))
    (fun _ => ret []).

Definition extractInterests (prompt : string) (result : json) : M W (list string) :=
  let analysisPrompt :=
    "Based on this user prompt and AI response, extract the user's interests and preferences. Return a JSON array of strings."
    ++ JS.nl ++ "    "
    ++ JS.nl ++ "    User Prompt: " ++ prompt
    ++ JS.nl ++ "    AI Response: " ++ JSON_stringify result in
  try_catch
    (let! response := generateWithOpenAI analysisPrompt
       "You are an interest analysis expert. Return only valid JSON."
       "gpt-3.5-turbo" in
     of_outcome (JSON_parse response))
    (fun _ => ret []).

Definition synthesizeInformation (query : string) (sources : list Source.t) : M W string :=
  let prompt :=
    "Synthesize information from multiple sources to answer this query: "
    ++ JS.dq ++ query ++ JS.dq
    ++ JS.nl ++ "    "
    ++ JS.nl ++ "    Sources:"
    ++ JS.nl ++ "    "
    ++ JS.join (JS.nl ++ JS.nl)
         (imap (fun index source =>
                  pretty (index + 1)%nat ++ ". " ++ Source.title source ++ ": "
                  ++ Source.content source) sources)
    ++ JS.nl ++ "    "
    ++ JS.nl ++ "    Provide a comprehensive, well-structured response that combines insights from all sources." in
  generateWithOpenAI prompt
    "You are an expert information synthesizer. Provide accurate, comprehensive responses."
    "gpt-4".

Definition extractRelatedTopics (content : string) : M W (list string) :=
  let prompt :=
    "Extract related topics and concepts from this content. Return a JSON array of strings: "
    ++ JS.dq ++ content ++ JS.dq in
  try_catch
    (let! response := generateWithOpenAI prompt
       "You are a topic extraction expert. Return only valid JSON."
       "gpt-3.5-turbo" in
     of_outcome (JSON_parse response))
    (fun _ => ret []).

Definition extractMainTopic (query : string) : M W string :=
  let prompt :=
    "What is the main topic or subject of this query? Return only the topic name: "
    ++ JS.dq ++ query ++ JS.dq in
  try_catch
    (let! response := generateWithOpenAI prompt
       "You are a topic identification expert." "gpt-3.5-turbo" in
     ret (JS.trim response))
    (fun _ => ret query).

Definition generateInsights (topic : string) : M W string :=
  let prompt :=
    "Provide deep insights and analysis about: " ++ topic
    ++ ". Include current trends, implications, and connections to other fields." in
  generateWithOpenAI prompt
    "You are an expert analyst providing deep insights on various topics."
    "gpt-4".

End with_world.
End AIProvider.

(** ** [KnowledgeSeeker] *)

Module KnowledgeSeeker.
Section with_world.
Context {W : Type} `{!World W}.

(** The placeholder search: one fixed record per query. *)
Definition performWebSearch (query : string) : M W (list Source.t) :=
  ret [ {| Source.title := "Search result for: " ++ query;
           Source.content := "Relevant information about " ++ query ++ " from web sources.";
           Source.source := "Web Search";
           Source.url := Some "https://example.com";
           Source.confidence := None |} ].

Definition searchWeb (query : string) : M W (list Source.t) :=
  try_catch
    (let! searchResults := performWebSearch query in
     ret (take 3 searchResults))
    (fun _ => ret []).

Definition searchWikipedia (query : string) : M W (list Source.t) :=
  try_catch
    (let! encodedQuery := of_outcome (encodeURIComponent query) in
     let! response := axios_get
       ("https://en.wikipedia.org/api/rest_v1/page/summary/" ++ encodedQuery) in
     match data response with
     | Some d =>
         if JS.truthy (extract d) then
           ret [ {| Source.title := summary_title d;
                    Source.content := extract d;
                    Source.source := "Wikipedia";
                    Source.url := desktop_page d;
                    Source.confidence := None |} ]
         else ret []
     | None => ret []
     end)
    (fun _ => ret []).

Definition generateAIInsights (query : string) : M W (option Source.t) :=
  try_catch
    (let! insights := AIProvider.generateInsights query in
     ret (Some {| Source.title := "AI Insights: " ++ query;
                  Source.content := insights;
                  Source.source := "AI Analysis";
                  Source.url := None;
                  Source.confidence := Some 0.8%Q |}))
    (fun _ => ret None).

Definition calculateConfidence (sources : list Source.t) : Q :=
  if (length sources =? 0)%nat then 0.1
  else if (length sources =? 1)%nat then 0.6
  else if (length sources =? 2)%nat then 0.8
  else 0.95.

(** [sources.filter((source) => source && source.content)] *)
Definition validSources (sources : list (option Source.t)) : list Source.t :=
  omap (fun source =>
          match source with
          | Some s => if JS.truthy (Source.content s) then Some s else None
          | None => None
          end) sources.

Definition synthesizeKnowledge (query : string) (sources : list (option Source.t))
  : M W KnowledgeItem.t :=
  let validSources := validSources sources in
  let! synthesizedContent := AIProvider.synthesizeInformation query validSources in
  let! relatedTopics := AIProvider.extractRelatedTopics synthesizedContent in
  let! topic := AIProvider.extractMainTopic query in
  let! now := total Date_now in
  ret {| KnowledgeItem.query := query;
         KnowledgeItem.topic := topic;
         KnowledgeItem.content := synthesizedContent;
         KnowledgeItem.source := "Multi-source synthesis";
         KnowledgeItem.confidence := calculateConfidence validSources;
         KnowledgeItem.timestamp := now;
         KnowledgeItem.relatedTopics := relatedTopics |}.

(** The sources gathered for one query, in the order in which they are
    concatenated. *)
Definition gatherSources (query : string) : M W (list (option Source.t)) :=
  let! webResults := searchWeb query in
  let! wikiResults := searchWikipedia query in
  let! aiInsights := generateAIInsights query in
  ret ((Some <$> webResults) ++ (Some <$> wikiResults) ++ [aiInsights])%list.

(** The body of the [try] block for one query. *)
Definition seekOne (query : string) : M W KnowledgeItem.t :=
  let! sources := gatherSources query in
  synthesizeKnowledge query sources.

(** The [for] loop of [seekKnowledge]; [knowledgeItems] is the array that
    [push] extends. *)
Fixpoint seekLoop (queries : list string) (knowledgeItems : list KnowledgeItem.t)
  : M W (list KnowledgeItem.t) :=
  match queries with
  | [] => ret knowledgeItems
  | query :: rest =>
      let! knowledgeItems' :=
        try_catch
          (let! synthesized := seekOne query in
           ret (knowledgeItems ++ [synthesized])%list)
          (fun _ => ret knowledgeItems) in
      seekLoop rest knowledgeItems'
  end.

Definition seekKnowledge (queries : list string) : M W (list KnowledgeItem.t) :=
  seekLoop queries [].

(** The [for] loop of [expandKnowledge]; [expandedKnowledge] is the array
    that [push] extends. *)
Fixpoint expandLoop (baseKnowledge : list KnowledgeItem.t)
    (expandedKnowledge : list KnowledgeItem.t) : M W (list KnowledgeItem.t) :=
  match baseKnowledge with
  | [] => ret expandedKnowledge
  | item :: rest =>
      let followUpQueries :=
        map (fun topic => "How does " ++ topic ++ " relate to "
                            ++ KnowledgeItem.topic item ++ "?")
            (KnowledgeItem.relatedTopics item) in
      let! additionalKnowledge := seekKnowledge followUpQueries in
      expandLoop rest (expandedKnowledge ++ additionalKnowledge)%list
  end.

Definition expandKnowledge (baseKnowledge : list KnowledgeItem.t)
  : M W (list KnowledgeItem.t) :=
  expandLoop baseKnowledge [].

End with_world.
End KnowledgeSeeker.

(** ** The [tasks] table *)

Module Db.

(** A query parameter. *)
Inductive value :=
| VText (s : string)
| VInt (z : Z)
| VTime (t : Z)
| VNull.

(** A row of [tasks]; [result] is nullable. *)
Record task_row := mkRow {
  id : string;
  user_id : string;
  prompt : string;
  context : string;
  result : option string;
  status : string;
  priority : Z;
  created_at : Z;
  updated_at : Z
}.

(** The ids of the [users] table, which [tasks.user_id] references, and
    the [tasks] table under its primary key. *)
Record t := mk {
  users : gset string;
  tasks : gmap string task_row
}.

Record QueryResult := mkResult {
  rows : list task_row;
  rowCount : nat
}.

Definition insert_task_sql : string :=
  "INSERT INTO tasks (id, user_id, prompt, context, status, created_at, updated_at) VALUES ($1, $2, $3, $4, $5, $6, $7)".

Definition update_result_sql : string :=
  "UPDATE tasks SET result = $1, status = $2, updated_at = NOW() WHERE id = $3".

Definition select_task_sql : string :=
  "SELECT * FROM tasks WHERE id = $1 AND user_id = $2".

(** The columns that [insert_task_sql] does not name take the defaults of
    the schema: [result] is null and [priority] is 1. *)
Definition default_priority : Z := 1.

(** What the server does with one statement at time [now]; the three
    statements above are the ones issued on the [tasks] table. *)
Definition execute (now : Z) (text : string) (params : list value) (d : t)
  : outcome QueryResult * t :=
  if String.eqb text insert_task_sql then
    match params with
    | [VText i; VText u; VText p; VText c; VText s; VTime ca; VTime ua] =>
        if bool_decide (u ∈ users d) then
          match tasks d !! i with
          | Some _ =>
              (Throw (JsError "duplicate key value violates unique constraint"), d)
          | None =>
              (Ok (mkResult [] 1),
               mk (users d)
                  (<[i := mkRow i u p c None s default_priority ca ua]> (tasks d)))
          end
        else (Throw (JsError "insert or update on table violates foreign key constraint"), d)
    | _ => (Throw (JsError "bind message does not match the statement"), d)
    end
  else if String.eqb text update_result_sql then
    match params with
    | [VText r; VText s; VText i] =>
        match tasks d !! i with
        | Some row =>
            (Ok (mkResult [] 1),
             mk (users d)
                (<[i := mkRow (id row) (user_id row) (prompt row) (context row)
                              (Some r) s (priority row) (created_at row) now]>
                   (tasks d)))
        | None => (Ok (mkResult [] 0), d)
        end
    | _ => (Throw (JsError "bind message does not match the statement"), d)
    end
  else if String.eqb text select_task_sql then
    match params with
    | [VText i; VText u] =>
        match tasks d !! i with
        | Some row =>
            if String.eqb (user_id row) u then (Ok (mkResult [row] 1), d)
            else (Ok (mkResult [] 0), d)
        | None => (Ok (mkResult [] 0), d)
        end
    | _ => (Throw (JsError "bind message does not match the statement"), d)
    end
  else (Throw (JsError "syntax error"), d).

End Db.

(** ** The state of the running process *)

(** The payload of a pushed event. *)
Inductive payload :=
| TaskProgress (taskId : string) (status : string) (result : json) (agent : string)
| TaskError (taskId : string) (error : string).

(** One [io.to(room).emit(event, payload)]. *)
Record Emitted := mkEmitted {
  room : string;
  event : string;
  args : payload
}.

(** A curious exploration that has been started and waits to go on after
    its first [await]: the agent it runs for and its follow-up queries. *)
Record Exploration := mkExploration {
  explorer : nat;
  followUpQueries : list string
}.

(** A processing attempt that waits for the task processor: its task and
    the values of [selectedAgent], [context] and [gatheredKnowledge]. *)
Record Attempt := mkAttempt {
  att_task : AgentTask.t;
  att_agent : nat;
  att_context : Context;
  att_knowledge : list KnowledgeItem.t
}.

(** An agent object is referred to by its position in [agents], which lists
    the values of the [Map] in insertion order.  [explorations] and
    [attempts] hold the suspended asynchronous calls. *)
Record System (W : Type) := mkSystem {
  agents : list Agent.t;
  explorations : list Exploration;
  attempts : list Attempt;
  taskQueue : list AgentTask.t;
  database : Db.t;
  io : list Emitted;
  world : W
}.
Arguments mkSystem {W}.
Arguments agents {W}.
Arguments explorations {W}.
Arguments attempts {W}.
Arguments taskQueue {W}.
Arguments database {W}.
Arguments io {W}.
Arguments world {W}.

Section system_access.
Context {W : Type}.

Definition set_agents (f : list Agent.t -> list Agent.t) (s : System W) : System W :=
  mkSystem (f (agents s)) (explorations s) (attempts s) (taskQueue s) (database s)
           (io s) (world s).

Definition set_explorations (f : list Exploration -> list Exploration) (s : System W)
  : System W :=
  mkSystem (agents s) (f (explorations s)) (attempts s) (taskQueue s) (database s)
           (io s) (world s).

Definition set_attempts (f : list Attempt -> list Attempt) (s : System W) : System W :=
  mkSystem (agents s) (explorations s) (f (attempts s)) (taskQueue s) (database s)
           (io s) (world s).

Definition set_taskQueue (f : list AgentTask.t -> list AgentTask.t) (s : System W)
  : System W :=
  mkSystem (agents s) (explorations s) (attempts s) (f (taskQueue s)) (database s)
           (io s) (world s).

Definition set_database (d : Db.t) (s : System W) : System W :=
  mkSystem (agents s) (explorations s) (attempts s) (taskQueue s) d (io s) (world s).

Definition set_io (f : list Emitted -> list Emitted) (s : System W) : System W :=
  mkSystem (agents s) (explorations s) (attempts s) (taskQueue s) (database s)
           (f (io s)) (world s).

Definition set_world (w : W) (s : System W) : System W :=
  mkSystem (agents s) (explorations s) (attempts s) (taskQueue s) (database s)
           (io s) w.

(** A computation on the world, run inside the process. *)
Definition in_world {A} (c : M W A) : M (System W) A :=
  fun s => let '(r, w) := c (world s) in (r, set_world w s).

(** [io.to(room).emit(event, payload)] *)
Definition emit (room event : string) (p : payload) : M (System W) unit :=
  modify (set_io (fun log => log ++ [mkEmitted room event p])%list).

(** A store operation first learns whether the store is reachable. *)
Definition reach `{!World W} (b : backend) : M (System W) unit :=
  let! fault := in_world (total (store_fault b)) in
  match fault with
  | Some e => throw e
  | None => ret tt
  end.

End system_access.

(** ** [DatabaseManager] *)

Module DatabaseManager.
Section with_world.
Context {W : Type} `{!World W}.

(** [pool.query(text, params)] *)
Definition pool_query (text : string) (params : list Db.value)
  : M (System W) Db.QueryResult :=
  reach Postgres ;;
  let! now := in_world (total Date_now) in
  fun s =>
    let '(r, d) := Db.execute now text params (database s) in
    (r, set_database d s).

Definition query (text : string) (params : list Db.value)
  : M (System W) Db.QueryResult :=
  let! start := in_world (total Date_now) in
  try_catch
    (let! result := pool_query text params in
     let! finish := in_world (total Date_now) in
     let duration := finish - start in
     ret result)
    (fun error => throw error).

End with_world.
End DatabaseManager.

(** ** [TaskQueue] *)

(** Modelled from the spec: the class [TaskQueue] of [./queue/taskQueue] is
    not among the sources.  The specification gives its contract: [enqueue]
    makes a task visible to later dequeues, [dequeue] returns the next task
    in first-in first-out order and removes it, or returns nothing when the
    queue is empty, and an outage of the backing store surfaces as an error
    of either operation. *)
Module TaskQueue.
Section with_world.
Context {W : Type} `{!World W}.

Definition addTask (task : AgentTask.t) : M (System W) unit :=
  reach Redis ;;
  modify (set_taskQueue (fun q => q ++ [task])%list).

Definition getNextTask : M (System W) (option AgentTask.t) :=
  reach Redis ;;
  let! q := gets taskQueue in
  match q with
  | [] => ret None
  | task :: rest => modify (set_taskQueue (fun _ => rest)) ;; ret (Some task)
  end.

End with_world.
End TaskQueue.

(** ** [AgentOrchestrator] *)

Module AgentOrchestrator.

(** An entry of [agentConfigs]. *)
Record AgentConfig := mkConfig {
  cfg_name : string;
  cfg_personality : AgentPersonality;
  cfg_specialization : list string;
  cfg_curiosityLevel : Q;
  cfg_learningRate : Q
}.

Definition agentConfigs : list AgentConfig :=
  [ mkConfig "Aria" (mkPersonality "curious" "analytical" "thorough")
      ["research"; "analysis"; "data-mining"] 0.9 0.8;
    mkConfig "Zephyr" (mkPersonality "creative" "intuitive" "innovative")
      ["creative-writing"; "brainstorming"; "ideation"] 0.95 0.7;
    mkConfig "Sage" (mkPersonality "wise" "methodical" "comprehensive")
      ["knowledge-synthesis"; "education"; "explanation"] 0.8 0.9;
    mkConfig "Nova" (mkPersonality "energetic" "quick" "adaptive")
      ["real-time-processing"; "quick-responses"; "multitasking"] 0.85 0.85 ].

(** [agents.set(agent.id, agent)]: an existing key keeps its place. *)
Fixpoint Map_set (agent : Agent.t) (m : list Agent.t) : list Agent.t :=
  match m with
  | [] => [agent]
  | a :: m' =>
      if String.eqb (Agent.id a) (Agent.id agent) then agent :: m'
      else a :: Map_set agent m'
  end.

Definition initializeAgents (m : list Agent.t) : list Agent.t :=
  fold_left
    (fun m config =>
       let agent :=
         {| Agent.id := "agent-" ++ JS.toLowerCase (cfg_name config);
            Agent.name := cfg_name config;
            Agent.personality := cfg_personality config;
            Agent.specialization := cfg_specialization config;
            Agent.status := idle;
            Agent.currentTask := None;
            Agent.knowledgeBase := ∅;
            Agent.curiosityLevel := cfg_curiosityLevel config;
            Agent.learningRate := cfg_learningRate config |} in
       Map_set agent m)
    agentConfigs m.

Definition calculateAgentScore (agent : Agent.t) (task : AgentTask.t) : Q :=
  let score := 0%Q in
  let score := (score + Agent.curiosityLevel agent * 0.3)%Q in
  let score := (score + Agent.learningRate agent * 0.2)%Q in
  let taskKeywords := JS.split " " (JS.toLowerCase (AgentTask.prompt task)) in
  fold_left
    (fun score specialization =>
       if existsb (fun keyword => JS.includes specialization keyword) taskKeywords
       then (score + 0.5)%Q
       else score)
    (Agent.specialization agent) score.

(** An element of [scoredAgents]: the agent (its position in the pool and
    its fields) and its score. *)
Record Scored := mkScored {
  ref : nat;
  agent : Agent.t;
  score : Q
}.

(** [Array.prototype.sort(compareFn)]: the stable sort, by insertion from
    the right.  An element moves in front of the ones for which
    [compareFn] does not put it behind. *)
Fixpoint sort_insert {A} (compareFn : A -> A -> Q) (x : A) (l : list A) : list A :=
  match l with
  | [] => [x]
  | y :: l' =>
      if Qle_bool (compareFn x y) 0 then x :: y :: l'
      else y :: sort_insert compareFn x l'
  end.

Fixpoint Array_sort {A} (compareFn : A -> A -> Q) (l : list A) : list A :=
  match l with
  | [] => []
  | x :: l' => sort_insert compareFn x (Array_sort compareFn l')
  end.

Definition availableAgents (pool : list Agent.t) : list (nat * Agent.t) :=
  List.filter (fun entry => AgentStatus_eqb (Agent.status (snd entry)) idle)
              (imap pair pool).

Definition scoredAgents (pool : list Agent.t) (task : AgentTask.t) : list Scored :=
  map (fun entry => mkScored (fst entry) (snd entry) (calculateAgentScore (snd entry) task))
      (availableAgents pool).

Definition byScore (a b : Scored) : Q := (score b - score a)%Q.

Definition selectFrom (pool : list Agent.t) (task : AgentTask.t) : option nat :=
  match availableAgents pool with
  | [] => None
  | _ => ref <$> head (Array_sort byScore (scoredAgents pool task))
  end.

Section with_world.
Context {W : Type} `{!World W}.

Definition selectAgent (task : AgentTask.t) : M (System W) (option nat) :=
  gets (fun s => selectFrom (agents s) task).

(** An assignment to a field of the agent object [selected]. *)
Definition assign (selected : nat) (f : Agent.t -> Agent.t) : M (System W) unit :=
  modify (set_agents (alter f selected)).

Definition generateKnowledgeQueries (prompt : string) (context : Context)
  : M (System W) (list string) :=
  let! concepts := in_world (AIProvider.extractConcepts prompt) in
  ret (concat
         (map (fun concept =>
                 [ "What is " ++ concept ++ "?";
                   "How does " ++ concept ++ " relate to "
                     ++ match userInterests context with
                        | Some interests => JS.join ", " interests
                        | None => "undefined"
                        end ++ "?";
                   "Latest developments in " ++ concept ])
              concepts)).

(** The part of [triggerCuriousExploration] that runs before its first
    [await]: the call is not awaited, so the rest of it is left for later
    in [explorations]. *)
Definition triggerCuriousExploration (agent : nat) (recentKnowledge : list KnowledgeItem.t)
  : M (System W) unit :=
  assign agent (Agent.set_status learning) ;;
  let followUpQueries :=
    map (fun item => "Tell me more about " ++ KnowledgeItem.topic item
                       ++ " and its implications") recentKnowledge in
  modify (set_explorations (fun l => l ++ [mkExploration agent followUpQueries])%list).

Definition updateAgentKnowledge (agent : nat) (knowledge : list KnowledgeItem.t)
  : M (System W) unit :=
  for_of knowledge
    (fun item =>
       let key := JS.or_else (KnowledgeItem.topic item) (KnowledgeItem.query item) in
       let! now := in_world (total Date_now) in
       assign agent
         (fun a =>
            Agent.set_knowledgeBase
              (<[key :=
                   {| KnowledgeItem.query := KnowledgeItem.query item;
                      KnowledgeItem.topic := KnowledgeItem.topic item;
                      KnowledgeItem.content := KnowledgeItem.content item;
                      KnowledgeItem.source := KnowledgeItem.source item;
                      KnowledgeItem.confidence :=
                        if Qeq_bool (KnowledgeItem.confidence item) 0 then 0.8%Q
                        else KnowledgeItem.confidence item;
                      KnowledgeItem.timestamp := now;
                      KnowledgeItem.relatedTopics := KnowledgeItem.relatedTopics item |}]>
                 (Agent.knowledgeBase a)) a)) ;;
  let! draw := in_world (total Math_random) in
  let! curiosity := gets (fun s => from_option Agent.curiosityLevel 0%Q (agents s !! agent)) in
  if Qlt_le_dec draw curiosity then triggerCuriousExploration agent knowledge
  else ret tt.

(** The rest of [triggerCuriousExploration], from its first [await] on,
    for the exploration at position [k] of [explorations]. *)
Definition resumeCuriousExploration (k : nat) : M (System W) unit :=
  let! waiting := gets (fun s => explorations s !! k) in
  match waiting with
  | None => ret tt
  | Some e =>
      modify (set_explorations (delete k)) ;;
      let! additionalKnowledge :=
        in_world (KnowledgeSeeker.seekKnowledge (followUpQueries e)) in
      updateAgentKnowledge (explorer e) additionalKnowledge ;;
      assign (explorer e) (Agent.set_status idle)
  end.

Definition storeTaskResult (taskId : string) (result : json) : M (System W) unit :=
  DatabaseManager.query Db.update_result_sql
    [Db.VText (JSON_stringify result); Db.VText "completed"; Db.VText taskId] ;;
  ret tt.

Definition updateUserContext (userId prompt : string) (result : json) : M (System W) unit :=
  let! interests := in_world (AIProvider.extractInterests prompt result) in
  let! now := in_world (total Date_now) in
  in_world (contextBuilder_updateUserContext userId
              {| upd_interests := interests;
                 upd_lastInteraction := now;
                 upd_interactionCount := 1 |}).

(** The [try] block of [processTask] up to the call of the task
    processor: selection, context, knowledge. *)
Definition processTask_gather (task : AgentTask.t)
  : M (System W) (nat * Context * list KnowledgeItem.t) :=
  let! selectedAgent := selectAgent task in
  match selectedAgent with
  | None => throw (JsError "No suitable agent available")
  | Some selectedAgent =>
      assign selectedAgent (Agent.set_status busy) ;;
      assign selectedAgent (Agent.set_currentTask (Some (AgentTask.id task))) ;;
      let! context := in_world (contextBuilder_buildContext
                                  (AgentTask.userId task) (AgentTask.prompt task)) in
      let! knowledgeQueries := generateKnowledgeQueries (AgentTask.prompt task) context in
      let! gatheredKnowledge := in_world (KnowledgeSeeker.seekKnowledge knowledgeQueries) in
      updateAgentKnowledge selectedAgent gatheredKnowledge ;;
      ret (selectedAgent, context, gatheredKnowledge)
  end.

(** The [try] block of [processTask] from the call of the task processor
    on.  The agent object exists, for [selectedAgent] comes from the pool,
    which never shrinks. *)
Definition processTask_finish (task : AgentTask.t) (selectedAgent : nat)
    (context : Context) (gatheredKnowledge : list KnowledgeItem.t) : M (System W) unit :=
  let! object := gets (fun s => agents s !! selectedAgent) in
  let! result :=
    match object with
    | Some a => in_world (taskProcessor_processTask task context gatheredKnowledge a)
    | None => throw (JsError "Cannot read properties of undefined")
    end in
  storeTaskResult (AgentTask.id task) result ;;
  updateUserContext (AgentTask.userId task) (AgentTask.prompt task) result ;;
  emit ("user-" ++ AgentTask.userId task) "task-progress"
    (TaskProgress (AgentTask.id task) "completed" result
       (from_option Agent.name "" object)) ;;
  assign selectedAgent (Agent.set_status idle) ;;
  assign selectedAgent (Agent.set_currentTask None).

(** The [try] block of [processTask]. *)
Definition processTask_try (task : AgentTask.t) : M (System W) unit :=
  let! gathered := processTask_gather task in
  processTask_finish task (fst (fst gathered)) (snd (fst gathered)) (snd gathered).

(** The [catch] block of [processTask]. *)
Definition processTask_catch (task : AgentTask.t) (error : exn) : M (System W) unit :=
  emit ("user-" ++ AgentTask.userId task) "task-error"
    (TaskError (AgentTask.id task)
       match error with
       | JsError message => message
       | JsValue _ => "Unknown error"
       end).

Definition processTask (task : AgentTask.t) : M (System W) unit :=
  try_catch (processTask_try task) (processTask_catch task).

(** One firing of the interval timer of [startProcessingLoop], when the
    attempt it starts runs to its end before anything else happens. *)
Definition tick : M (System W) unit :=
  try_catch
    (let! task := TaskQueue.getNextTask in
     match task with
     | Some task => processTask task
     | None => ret tt
     end)
    (fun _ => ret tt).

(** The same firing and attempt in two parts, so that other callbacks can
    run while the attempt waits for the task processor: [beginTask] runs
    [processTask] up to that call and suspends the attempt, [finishTask]
    takes the suspended attempt at position [k] to its end. *)
Definition beginTask (task : AgentTask.t) : M (System W) unit :=
  try_catch
    (let! gathered := processTask_gather task in
     modify (set_attempts
               (fun l => l ++ [mkAttempt task (fst (fst gathered)) (snd (fst gathered))
                                         (snd gathered)])%list))
    (processTask_catch task).

Definition finishTask (k : nat) : M (System W) unit :=
  let! waiting := gets (fun s => attempts s !! k) in
  match waiting with
  | None => ret tt
  | Some a =>
      modify (set_attempts (delete k)) ;;
      try_catch
        (processTask_finish (att_task a) (att_agent a) (att_context a) (att_knowledge a))
        (processTask_catch (att_task a))
  end.

Definition tick_begin : M (System W) unit :=
  try_catch
    (let! task := TaskQueue.getNextTask in
     match task with
     | Some task => beginTask task
     | None => ret tt
     end)
    (fun _ => ret tt).

Definition submitTask (userId prompt : string) (context : json) : M (System W) string :=
  let! millis := in_world (total Date_now) in
  let! draw := in_world (total Math_random) in
  let! createdAt := in_world (total Date_now) in
  let! updatedAt := in_world (total Date_now) in
  let task :=
    {| AgentTask.id := "task-" ++ pretty millis ++ "-"
                         ++ JS.substr 2 9 (Number_toString36 draw);
       AgentTask.userId := userId;
       AgentTask.prompt := prompt;
       AgentTask.context := context;
       AgentTask.priority := 1;
       AgentTask.status := pending;
       AgentTask.createdAt := createdAt;
       AgentTask.updatedAt := updatedAt |} in
  TaskQueue.addTask task ;;
  DatabaseManager.query Db.insert_task_sql
    [ Db.VText (AgentTask.id task); Db.VText (AgentTask.userId task);
      Db.VText (AgentTask.prompt task); Db.VText (JSON_stringify (AgentTask.context task));
      Db.VText (TaskStatus_name (AgentTask.status task));
      Db.VTime (AgentTask.createdAt task); Db.VTime (AgentTask.updatedAt task) ] ;;
  ret (AgentTask.id task).

(** The status route of [routes/tasks.ts]: the [status] column of the
    caller's task, when the row exists. *)
Definition taskStatus (taskId userId : string) : M (System W) (option string) :=
  let! result := DatabaseManager.query Db.select_task_sql
                   [Db.VText taskId; Db.VText userId] in
  ret (Db.status <$> head (Db.rows result)).

(** An element of what [getAgentStatus] returns. *)
Record AgentView := mkView {
  view_id : string;
  view_name : string;
  view_status : AgentStatus;
  view_specialization : list string;
  view_knowledgeBaseSize : nat;
  view_curiosityLevel : Q
}.

Definition getAgentStatus (s : System W) : list AgentView :=
  map (fun agent =>
         {| view_id := Agent.id agent;
            view_name := Agent.name agent;
            view_status := Agent.status agent;
            view_specialization := Agent.specialization agent;
            view_knowledgeBaseSize := size (Agent.knowledgeBase agent);
            view_curiosityLevel := Agent.curiosityLevel agent |})
      (agents s).

(** The process after the constructor has run. *)
Definition start (d : Db.t) (w : W) : System W :=
  mkSystem (initializeAgents []) [] [] [] d [] w.

End with_world.
End AgentOrchestrator.

(** ** The statements of the specification *)

Module Spec.

(** The whitespace-delimited tokens of a string: its maximal runs of
    characters that are not whitespace. *)
Fixpoint tokens_from (current : string) (s : string) : list string :=
  match s with
  | EmptyString => if JS.truthy current then [current] else []
  | String c s' =>
      if JS.is_space c then
        (if JS.truthy current then [current] else []) ++ tokens_from EmptyString s'
      else tokens_from (current ++ String c EmptyString) s'
  end%list.

Definition tokens (s : string) : list string := tokens_from EmptyString s.

(** The number of specialization tags of which some whitespace-delimited
    lowercase token of the prompt is a substring. *)
Definition specializationMatchCount (agent : Agent.t) (task : AgentTask.t) : nat :=
  length (List.filter
            (fun tag => existsb (fun token => JS.includes tag token)
                                (tokens (JS.toLowerCase (AgentTask.prompt task))))
            (Agent.specialization agent)).

Definition score (agent : Agent.t) (task : AgentTask.t) : Q :=
  0.3 * Agent.curiosityLevel agent + 0.2 * Agent.learningRate agent
  + 0.5 * inject_Z (Z.of_nat (specializationMatchCount agent task)).

(** The confidence rule: 0 sources give 0.1, 1 gives 0.6, 2 give 0.8, 3
    or more give 0.95. *)
Definition confidence (sources : nat) : Q :=
  match sources with
  | 0%nat => 0.1
  | 1%nat => 0.6
  | 2%nat => 0.8
  | _ => 0.95
  end.

End Spec.

(** The tags of an agent that the code counts: those that include one of
    the pieces into which the single spaces cut the lowercased prompt. *)
Definition matchedTags (agent : Agent.t) (task : AgentTask.t) : list string :=
  List.filter
    (fun tag => existsb (fun keyword => JS.includes tag keyword)
                        (JS.split " " (JS.toLowerCase (AgentTask.prompt task))))
    (Agent.specialization agent).

(** A word without whitespace in it. *)
Fixpoint plain_word (w : string) : bool :=
  match w with
  | EmptyString => true
  | String c w' => negb (JS.is_space c) && plain_word w'
  end.

(** Agent [i] is the best idle agent for [task]: it is idle, no idle agent
    scores more, and the idle agents before it score strictly less. *)
Definition best_idle (pool : list Agent.t) (task : AgentTask.t) (i : nat) : Prop :=
  exists a, pool !! i = Some a /\ Agent.status a = idle
    /\ forall j b, pool !! j = Some b -> Agent.status b = idle ->
         (AgentOrchestrator.calculateAgentScore b task
          <= AgentOrchestrator.calculateAgentScore a task)%Q
         /\ ((j < i)%nat ->
             (AgentOrchestrator.calculateAgentScore b task
              < AgentOrchestrator.calculateAgentScore a task)%Q).

(** What the specification says [seekKnowledge] returns: the queries are
    taken in order, each in the world its predecessors left; a query whose
    processing succeeds contributes its item, one whose processing throws
    contributes nothing, and the rest of the batch goes on either way. *)
Inductive seeks {W : Type} `{!World W}
  : list string -> W -> list KnowledgeItem.t -> W -> Prop :=
| seeks_nil w : seeks [] w [] w
| seeks_item q qs w item w1 items w2 :
    KnowledgeSeeker.seekOne q w = (Ok item, w1) ->
    seeks qs w1 items w2 ->
    seeks (q :: qs) w (item :: items) w2
| seeks_omit q qs w e w1 items w2 :
    KnowledgeSeeker.seekOne q w = (Throw e, w1) ->
    seeks qs w1 items w2 ->
    seeks (q :: qs) w items w2.

(** ** The vocabulary of the properties *)

Section vocabulary.
Context {W : Type} `{!World W}.

(** The message that the [catch] block publishes for a thrown value. *)
Definition published_error (e : exn) : string :=
  match e with
  | JsError message => message
  | JsValue _ => "Unknown error"
  end.

(** The parameters that [submitTask] binds to its INSERT statement. *)
Definition inserted (task : AgentTask.t) : list Db.value :=
  [ Db.VText (AgentTask.id task); Db.VText (AgentTask.userId task);
    Db.VText (AgentTask.prompt task); Db.VText (JSON_stringify (AgentTask.context task));
    Db.VText (TaskStatus_name (AgentTask.status task));
    Db.VTime (AgentTask.createdAt task); Db.VTime (AgentTask.updatedAt task) ].

(** The agent pool and the notification channel together. *)
Definition pool_and_channel (s : System W) : list Agent.t * list Emitted :=
  (agents s, io s).

(** The attempt's one statement on the [tasks] table has been executed. *)
Definition result_stored (task : AgentTask.t) (d d' : Db.t) : Prop :=
  exists now result res,
    Db.execute now Db.update_result_sql
      [Db.VText (JSON_stringify result); Db.VText "completed";
       Db.VText (AgentTask.id task)] d
    = (Ok res, d').

(** Every run of [c] takes a state to an [R]-related one, whether it returns
    or throws. *)
Definition preserves {A} (R : relation (System W)) (c : M (System W) A) : Prop :=
  forall s r s', c s = (r, s') -> R s s'.

(** The component [f] of the state is the same afterwards. *)
Definition keeps {X} (f : System W -> X) : relation (System W) :=
  fun s s' => f s' = f s.

(** Between two states of an agent: it holds the same task and has not
    become busy. *)
Definition keeps_task (a a' : Agent.t) : Prop :=
  Agent.currentTask a' = Agent.currentTask a
  /\ (Agent.status a' = busy -> Agent.status a = busy).

(** Between two states of an agent: it holds the same task, and its status
    is the same or has become [learning]. *)
Definition holds_on (a a' : Agent.t) : Prop :=
  Agent.currentTask a' = Agent.currentTask a
  /\ (Agent.status a' = Agent.status a \/ Agent.status a' = learning).

(** Only the agent object [i] has changed, and by a change within [P]. *)
Definition agent_step (i : nat) (P : relation Agent.t) : relation (System W) :=
  fun s s' => exists F, agents s' = alter F i (agents s) /\ forall a, P a (F a).

End vocabulary.

(** ** The process as a transition system *)

Section transitions.
Context {W : Type} `{!World W}.

(** No agent holds a task with this id and none waits in the queue. *)
Definition fresh (taskId : string) (s : System W) : Prop :=
  (forall i a, agents s !! i = Some a -> Agent.currentTask a <> Some taskId)
  /\ (forall task, In task (taskQueue s) -> AgentTask.id task <> taskId).

(** What can happen next: a task is submitted, the timer fires and an
    attempt starts, a suspended attempt goes on to its end, or a pending
    exploration goes on to its end.  The id that [submitTask] makes up from
    the clock and a random draw is taken to be fresh. *)
Inductive step : System W -> System W -> Prop :=
| step_submit userId prompt context s r s' :
    AgentOrchestrator.submitTask userId prompt context s = (r, s') ->
    (forall task, taskQueue s' = (taskQueue s ++ [task])%list ->
                  fresh (AgentTask.id task) s) ->
    step s s'
| step_tick s r s' :
    AgentOrchestrator.tick_begin s = (r, s') -> step s s'
| step_finish k s r s' :
    AgentOrchestrator.finishTask k s = (r, s') -> step s s'
| step_explore k s r s' :
    AgentOrchestrator.resumeCuriousExploration k s = (r, s') -> step s s'.

Definition reachable (s : System W) : Prop :=
  exists d w, rtc step (AgentOrchestrator.start d w) s.

(** The agent pool [pool] is consistent with the queued task ids [queued]:
    a busy agent holds a task, no two agents hold the same task, no held
    task is queued, and no task is queued twice. *)
Definition consistent (pool : list Agent.t) (queued : list string) : Prop :=
  (forall i a, pool !! i = Some a -> Agent.status a = busy ->
               is_Some (Agent.currentTask a))
  /\ (forall i j a b t, pool !! i = Some a -> pool !! j = Some b ->
        Agent.currentTask a = Some t -> Agent.currentTask b = Some t -> i = j)
  /\ (forall i a t, pool !! i = Some a -> Agent.currentTask a = Some t ->
        ~ In t queued)
  /\ NoDup queued.

End transitions.

(** ** The vocabulary of the further properties *)

Section further_vocabulary.
Context {W : Type} `{!World W}.

(** The key under which [updateAgentKnowledge] files an item. *)
Definition knowledge_key (item : KnowledgeItem.t) : string :=
  JS.or_else (KnowledgeItem.topic item) (KnowledgeItem.query item).

(** The part of the score that does not depend on the task. *)
Definition base_score (agent : Agent.t) : Q :=
  0.3 * Agent.curiosityLevel agent + 0.2 * Agent.learningRate agent.

(** Between two states of an agent: what it was configured with is the
    same, and it knows about every key it knew about. *)
Definition evolves (a a' : Agent.t) : Prop :=
  Agent.id a' = Agent.id a /\ Agent.name a' = Agent.name a
  /\ Agent.personality a' = Agent.personality a
  /\ Agent.specialization a' = Agent.specialization a
  /\ Agent.curiosityLevel a' = Agent.curiosityLevel a
  /\ Agent.learningRate a' = Agent.learningRate a
  /\ dom (Agent.knowledgeBase a) ⊆ dom (Agent.knowledgeBase a').

(** The same of two pools, agent by agent. *)
Definition pool_evolves (s s' : System W) : Prop :=
  Forall2 evolves (agents s) (agents s').

(** The pool has the size it had, and every agent object but the one at
    position [i] is as it was. *)
Definition others_untouched (i : nat) (s s' : System W) : Prop :=
  length (agents s') = length (agents s)
  /\ forall j, j <> i -> agents s' !! j = agents s !! j.

(** What the loop of [updateAgentKnowledge] has made of the agent [a]
    after the items [done]. *)
Definition filed (a : Agent.t) (done : list KnowledgeItem.t) (a1 : Agent.t) : Prop :=
  Agent.status a1 = Agent.status a
  /\ Agent.currentTask a1 = Agent.currentTask a
  /\ Agent.curiosityLevel a1 = Agent.curiosityLevel a
  /\ dom (Agent.knowledgeBase a1)
     = dom (Agent.knowledgeBase a) ∪ list_to_set (map knowledge_key done)
  /\ forall key entry, Agent.knowledgeBase a1 !! key = Some entry ->
       Agent.knowledgeBase a !! key = Some entry
       \/ exists item, In item done /\ knowledge_key item = key
            /\ KnowledgeItem.query entry = KnowledgeItem.query item
            /\ KnowledgeItem.content entry = KnowledgeItem.content item
            /\ Qeq_bool (KnowledgeItem.confidence entry) 0 = false.

End further_vocabulary.

(** ** A scripted world

    A world whose answers are fixed by a few switches; it serves the
    concrete runs below. *)

Record Script := mkScript {
  clock : Z;                         (* the time, which every reading advances *)
  draw : Q;                          (* what Math.random returns *)
  reply : string;                    (* the content of every chat completion *)
  chat_refuses : option string;      (* requests mentioning this word fail *)
  page : option PageSummary;         (* the encyclopedia's answer, if any *)
  processor_fails : bool;            (* the task processor throws *)
  redis_down : bool;
  postgres_down : bool
}.

Definition concepts_reply : string := "[" ++ JS.dq ++ "entanglement" ++ JS.dq ++ "]".

#[global] Instance Script_world : World Script := {|
  openai_chat_completions_create request w :=
    match chat_refuses w with
    | Some word =>
        if existsb (fun m => JS.includes (snd m) word) (messages request)
        then (Throw (JsError "Request failed with status code 500"), w)
        else (Ok (mkChatCompletion [Some (reply w)]), w)
    | None => (Ok (mkChatCompletion [Some (reply w)]), w)
    end;
  axios_get url w :=
    match page w with
    | Some p => (Ok (mkAxiosResponse (Some p)), w)
    | None => (Throw (JsError "Request failed with status code 404"), w)
    end;
  encodeURIComponent s := Ok s;
  JSON_parse s :=
    if String.eqb s "[]" then Ok []
    else if String.eqb s concepts_reply then Ok ["entanglement"]
    else Throw (JsError "Unexpected token in JSON");
  JSON_stringify v :=
    match v with
    | JStr s => JS.dq ++ s ++ JS.dq
    | JNull => "null"
    | _ => "{}"
    end;
  Math_random w := (draw w, w);
  Date_now w :=
    (clock w,
     mkScript (clock w + 1) (draw w) (reply w) (chat_refuses w) (page w)
              (processor_fails w) (redis_down w) (postgres_down w));
  Number_toString36 q := "0.4fzyo82mvyr";
  store_fault b w :=
    (match b with
     | Redis => if redis_down w then Some (JsError "Connection is closed.") else None
     | Postgres => if postgres_down w then Some (JsError "Connection terminated") else None
     end, w);
  contextBuilder_buildContext userId prompt w := (Ok (mkContext None 0 None JNull), w);
  contextBuilder_updateUserContext userId update w := (Ok tt, w);
  taskProcessor_processTask task context knowledge agent w :=
    if processor_fails w then (Throw (JsError "AI generation failed"), w)
    else (Ok (JStr "done"), w)
|}.

Module Scenario.

Definition calm : Script :=
  mkScript 1700000000000 0.99 concepts_reply None None false false false.

Definition alice : string := "6f1c2a9e-0000-4000-8000-000000000001".

(** A well-formed user id that the [users] table does not hold. *)
Definition stranger : string := "6f1c2a9e-0000-4000-8000-00000000ffff".

Definition db0 : Db.t := Db.mk {[ alice ]} ∅.

Definition task1 : AgentTask.t :=
  AgentTask.mk "task-1" alice "research entanglement" JNull 1 pending 0 0.

(** The row that the submission of [task1] left in the table. *)
Definition row1 : Db.task_row :=
  Db.mkRow "task-1" alice "research entanglement" "null" None "pending" 1 0 0.

Definition db1 : Db.t := Db.mk {[ alice ]} {[ "task-1" := row1 ]}.

(** A world in which the task processor throws. *)
Definition stubborn : Script :=
  mkScript 1700000000000 0.99 concepts_reply None None true false false.

(** A world in which every random draw is below every curiosity level. *)
Definition curious : Script :=
  mkScript 1700000000000 0.05 concepts_reply None None false false false.

(** The process right after its start, with [task1] submitted. *)
Definition submitted (w : Script) : System Script :=
  mkSystem (AgentOrchestrator.initializeAgents []) [] [] [task1] db1 [] w.

(** The same with every agent forced to [busy]. *)
Definition all_busy : System Script :=
  set_agents (map (Agent.set_status busy)) (submitted calm).

Definition aria : Agent.t :=
  Agent.mk "agent-aria" "Aria" (mkPersonality "curious" "analytical" "thorough")
    ["research"; "analysis"; "data-mining"] idle None ∅ 0.9 0.8.


(** A world in which the chat completion fails for every request that
    mentions "forbidden". *)
Definition picky : Script :=
  mkScript 1700000000000 0.99 concepts_reply (Some "forbidden") None false false false.

(** A world in which the encyclopedia has a page. *)
Definition informed : Script :=
  mkScript 1700000000000 0.99 concepts_reply None
    (Some (mkPageSummary "Quantum" "Quantum mechanics describes nature at small scales."
             None))
    false false false.


(** A run: the process starts in a curious world, Alice submits a task, the
    timer fires and the attempt waits for the task processor, and the
    exploration that the attempt has triggered comes to its end. *)
Definition fresh_start : System Script := AgentOrchestrator.start db0 curious.

Definition accepted : System Script :=
  snd (AgentOrchestrator.submitTask alice "research entanglement" JNull fresh_start).

Definition started : System Script := snd (AgentOrchestrator.tick_begin accepted).

Definition explored : System Script :=
  snd (AgentOrchestrator.resumeCuriousExploration 0 started).

End Scenario.

(** Further worlds and states for concrete runs. *)
Module Cases.

(** A world in which the chat completion fails for every request. *)
Definition silent : Script :=
  mkScript 1700000000000 0.99 concepts_reply (Some "") None false false false.

(** A world in which the queue's store is out of reach. *)
Definition cut_off : Script :=
  mkScript 1700000000000 0.99 concepts_reply None None false true false.

(** The process right after its start, in a calm world and with an empty
    queue. *)
Definition quiet_start : System Script :=
  AgentOrchestrator.start Scenario.db1 Scenario.calm.

(** An item with two related topics and one with none. *)
Definition wave_item : KnowledgeItem.t :=
  KnowledgeItem.mk "waves" "waves" "About waves." "Multi-source synthesis" 0.8 0
    ["light"; "sound"].

Definition lone_item : KnowledgeItem.t :=
  KnowledgeItem.mk "stones" "" "About stones." "Multi-source synthesis" 0 0 [].

End Cases.

(** * Properties *)


(** ** Scoring (C5) *)

Section scoring.

Lemma score_fold (keywords : list string) (tags : list string) (acc : Q) :
  fold_left
    (fun score specialization =>
       if existsb (fun keyword => JS.includes specialization keyword) keywords
       then (score + 0.5)%Q else score)
    tags acc
  == acc + 0.5 * inject_Z (Z.of_nat (length
       (List.filter
          (fun tag => existsb (fun keyword => JS.includes tag keyword) keywords)
          tags))).
Proof.
  revert acc. induction tags as [|tag tags IH]; intros acc; simpl.
  - ring.
  - rewrite IH. destruct (existsb _ keywords); simpl length.
    + rewrite Nat2Z.inj_succ, <- Z.add_1_r, inject_Z_plus. simpl (inject_Z 1). ring.
    + ring.
Qed.


(** An empty piece, which a leading, trailing or doubled space produces,
    is included in every tag. *)
Lemma includes_empty (tag : string) : JS.includes tag "" = true.
Proof. destruct tag; reflexivity. Qed.

(** *** Prompts made of words separated by single spaces

    On such prompts cutting at the spaces yields the whitespace-delimited
    tokens, and the score is the one the specification gives. *)

Lemma string_app_cons (x : ascii) (a b : string) : String x a ++ b = String x (a ++ b).
Proof. reflexivity. Qed.

Lemma string_app_assoc (a b c : string) : (a ++ b) ++ c = a ++ (b ++ c).
Proof.
  induction a as [|x a IH]; [reflexivity|]. now rewrite !string_app_cons, IH.
Qed.

Lemma string_app_empty (a : string) : a ++ "" = a.
Proof.
  induction a as [|x a IH]; [reflexivity|]. now rewrite string_app_cons, IH.
Qed.

Lemma not_space_not_blank (c : ascii) : JS.is_space c = false -> Ascii.eqb c " " = false.
Proof.
  intros Hc. destruct (Ascii.eqb_spec c " ") as [-> | Hne]; [discriminate Hc | reflexivity].
Qed.

Lemma split_plain (w : string) : plain_word w = true -> JS.split " " w = [w].
Proof.
  induction w as [|c w IH]; simpl; [reflexivity|].
  intros [Hc Hw]%andb_prop. apply negb_true_iff in Hc.
  now rewrite (not_space_not_blank c Hc), (IH Hw).
Qed.

Lemma split_plain_app (w rest : string) :
  plain_word w = true ->
  JS.split " " (w ++ String " " rest) = w :: JS.split " " rest.
Proof.
  induction w as [|c w IH]; [reflexivity|]. rewrite string_app_cons. simpl.
  intros [Hc Hw]%andb_prop. apply negb_true_iff in Hc.
  now rewrite (not_space_not_blank c Hc), (IH Hw).
Qed.

Lemma join_cons (w w' : string) (words : list string) :
  JS.join " " (w :: w' :: words) = w ++ String " " (JS.join " " (w' :: words)).
Proof. reflexivity. Qed.

Lemma split_join (words : list string) :
  words <> [] ->
  Forall (fun w => plain_word w = true) words ->
  JS.split " " (JS.join " " words) = words.
Proof.
  intros Hne Hall. induction Hall as [|w words Hw Hall IH]; [contradiction|].
  destruct words as [|w' words].
  - simpl. now apply split_plain.
  - rewrite join_cons, (split_plain_app _ _ Hw). f_equal. now apply IH.
Qed.

Lemma tokens_from_plain (w current rest : string) :
  plain_word w = true ->
  Spec.tokens_from current (w ++ rest) = Spec.tokens_from (current ++ w) rest.
Proof.
  revert current. induction w as [|c w IH]; intros current.
  - intros _. now rewrite string_app_empty.
  - rewrite string_app_cons. simpl.
    intros [Hc Hw]%andb_prop. apply negb_true_iff in Hc. rewrite Hc, (IH _ Hw).
    now rewrite string_app_assoc.
Qed.

Lemma tokens_join (words : list string) :
  Forall (fun w => plain_word w = true /\ w <> "") words ->
  Spec.tokens (JS.join " " words) = words.
Proof.
  unfold Spec.tokens. induction 1 as [|w words [Hw Hne] Hall IH]; [reflexivity|].
  assert (JS.truthy w = true) as Htruthy by (destruct w; [contradiction | reflexivity]).
  destruct words as [|w' words].
  - simpl JS.join. rewrite <- (string_app_empty w) at 1.
    rewrite (tokens_from_plain w "" "" Hw). change ("" ++ w) with w.
    simpl. now rewrite Htruthy.
  - rewrite join_cons, (tokens_from_plain w "" _ Hw). change ("" ++ w) with w.
    simpl Spec.tokens_from. rewrite Htruthy. simpl. f_equal. exact IH.
Qed.

Lemma lower_ascii_space (c : ascii) : JS.is_space (JS.lower_ascii c) = JS.is_space c.
Proof. destruct c as [[] [] [] [] [] [] [] []]; reflexivity. Qed.

Lemma toLowerCase_plain (w : string) : plain_word (JS.toLowerCase w) = plain_word w.
Proof.
  induction w as [|c w IH]; simpl; [reflexivity|]. now rewrite lower_ascii_space, IH.
Qed.

Lemma toLowerCase_app (a b : string) :
  JS.toLowerCase (a ++ b) = JS.toLowerCase a ++ JS.toLowerCase b.
Proof.
  induction a as [|c a IH]; [reflexivity|]. rewrite !string_app_cons. simpl.
  now rewrite IH.
Qed.

Lemma toLowerCase_join (words : list string) :
  JS.toLowerCase (JS.join " " words) = JS.join " " (map JS.toLowerCase words).
Proof.
  induction words as [|w [|w' words] IH]; [reflexivity | reflexivity |].
  rewrite join_cons, toLowerCase_app. simpl map. rewrite join_cons. simpl JS.toLowerCase.
  f_equal. f_equal. exact IH.
Qed.

(** The score is the one the specification gives when the prompt consists
    of one or more words, none empty and none with whitespace in it,
    separated by single spaces. *)
Lemma score_of_plain_prompt (agent : Agent.t) (task : AgentTask.t) (words : list string) :
  AgentTask.prompt task = JS.join " " words ->
  words <> [] ->
  Forall (fun w => plain_word w = true /\ w <> "") words ->
  AgentOrchestrator.calculateAgentScore agent task == Spec.score agent task.
Proof.
  intros Hprompt Hne Hall.
  unfold AgentOrchestrator.calculateAgentScore, Spec.score, Spec.specializationMatchCount.
  rewrite score_fold, Hprompt, toLowerCase_join.
  rewrite split_join, tokens_join.
  - ring.
  - apply Forall_map. eapply Forall_impl; [exact Hall|]. simpl.
    intros w [Hw Hnew]. rewrite toLowerCase_plain. split; [exact Hw|].
    destruct w; [contradiction | discriminate].
  - destruct words; [contradiction | discriminate].
  - apply Forall_map. eapply Forall_impl; [exact Hall|]. simpl.
    intros w [Hw _]. now rewrite toLowerCase_plain.
Qed.

End scoring.

(** ** Selection (C9) *)

Section selection.
Import AgentOrchestrator.

Lemma sort_insert_Permutation {A} (cmp : A -> A -> Q) (x : A) (l : list A) :
  Permutation (sort_insert cmp x l) (x :: l).
Proof.
  induction l as [|y l IH]; simpl.
  - reflexivity.
  - destruct (Qle_bool (cmp x y) 0).
    + reflexivity.
    + rewrite IH. apply perm_swap.
Qed.

(** The model of [sort] returns the elements it was given... *)
Lemma Array_sort_Permutation {A} (cmp : A -> A -> Q) (l : list A) :
  Permutation (Array_sort cmp l) l.
Proof.
  induction l as [|x l IH]; simpl.
  - reflexivity.
  - rewrite sort_insert_Permutation. now apply perm_skip.
Qed.

Lemma sort_insert_sorted (x : Scored) (l : list Scored) :
  StronglySorted (fun a b => (score b <= score a)%Q) l ->
  StronglySorted (fun a b => (score b <= score a)%Q) (sort_insert byScore x l).
Proof.
  induction 1 as [|y l Hl IH Hy]; simpl.
  - repeat constructor.
  - destruct (Qle_bool (byScore x y) 0) eqn:Hc.
    + apply Qle_bool_iff in Hc. unfold byScore in Hc.
      constructor; [now constructor|].
      constructor; [lra|].
      eapply Forall_impl; [exact Hy|]. simpl. intros z Hz. lra.
    + assert (score x < score y)%Q as Hlt.
      { apply Qnot_le_lt. intros Hle. apply Bool.not_true_iff_false in Hc.
        apply Hc, Qle_bool_iff. unfold byScore. lra. }
      constructor; [exact IH|].
      rewrite sort_insert_Permutation.
      constructor; [lra | exact Hy].
Qed.

(** ... in descending order of score. *)
Lemma Array_sort_sorted (l : list Scored) :
  StronglySorted (fun a b => (score b <= score a)%Q) (Array_sort byScore l).
Proof.
  induction l as [|x l IH]; simpl.
  - constructor.
  - now apply sort_insert_sorted.
Qed.

(** The first element after sorting is the first of the elements with
    the highest score: everything before it in the input scores strictly
    less, everything after it scores at most as much. *)
Lemma sort_head_best (l : list Scored) :
  match head (Array_sort byScore l) with
  | None => l = []
  | Some m =>
      exists l1 l2, l = (l1 ++ m :: l2)%list
        /\ Forall (fun y => (score y < score m)%Q) l1
        /\ Forall (fun y => (score y <= score m)%Q) l2
  end.
Proof.
  induction l as [|x l IH]; simpl; [reflexivity|].
  destruct (Array_sort byScore l) as [|m rest] eqn:E; simpl in IH |- *.
  - subst l. exists [], []. repeat split; constructor.
  - destruct IH as (l1 & l2 & -> & H1 & H2).
    destruct (Qle_bool (byScore x m) 0) eqn:Hc; simpl.
    + apply Qle_bool_iff in Hc. unfold byScore in Hc.
      exists [], (l1 ++ m :: l2)%list. repeat split; [constructor|].
      apply Forall_app. split.
      * eapply Forall_impl; [exact H1|]. simpl. intros z Hz. lra.
      * constructor; [lra|].
        eapply Forall_impl; [exact H2|]. simpl. intros z Hz. lra.
    + assert (score x < score m)%Q as Hlt.
      { apply Qnot_le_lt. intros Hle. apply Bool.not_true_iff_false in Hc.
        apply Hc, Qle_bool_iff. unfold byScore. lra. }
      exists (x :: l1), l2. repeat split; [|exact H2].
      now constructor.
Qed.

Lemma AgentStatus_eqb_eq (a b : AgentStatus) : AgentStatus_eqb a b = true <-> a = b.
Proof. destruct a, b; simpl; split; congruence. Qed.

(** The idle agents are listed by increasing position. *)
Lemma available_from_sorted (pool : list Agent.t) (n : nat) :
  let entries :=
    List.filter (fun entry => AgentStatus_eqb (Agent.status (snd entry)) idle)
                (imap (fun i a => ((n + i)%nat, a)) pool) in
  StronglySorted (fun x y => (fst x < fst y)%nat) entries
  /\ Forall (fun e => (n <= fst e)%nat) entries.
Proof.
  revert n. induction pool as [|a pool IH]; intros n; simpl.
  - split; constructor.
  - destruct (IH (S n)) as [Hs Hf].
    rewrite (imap_ext _ (fun i a => ((S n + i)%nat, a))) by (intros; simpl; f_equal; lia).
    assert (Forall (fun e => (n < fst e)%nat)
              (List.filter (fun entry => AgentStatus_eqb (Agent.status (snd entry)) idle)
                 (imap (fun i a => ((S n + i)%nat, a)) pool))) as Hlt.
    { eapply Forall_impl; [exact Hf|]. simpl. intros; lia. }
    destruct (AgentStatus_eqb (Agent.status a) idle); split.
    + constructor; [exact Hs|]. rewrite Nat.add_0_r. exact Hlt.
    + constructor; [simpl; lia|]. eapply Forall_impl; [exact Hlt|]. simpl. intros; lia.
    + exact Hs.
    + eapply Forall_impl; [exact Hlt|]. simpl. intros; lia.
Qed.

Lemma availableAgents_sorted (pool : list Agent.t) :
  StronglySorted (fun x y => (fst x < fst y)%nat) (availableAgents pool).
Proof. exact (proj1 (available_from_sorted pool 0)). Qed.

Lemma availableAgents_In (pool : list Agent.t) (i : nat) (a : Agent.t) :
  In (i, a) (availableAgents pool) <-> pool !! i = Some a /\ Agent.status a = idle.
Proof.
  unfold availableAgents. rewrite filter_In, <- list_elem_of_In, elem_of_lookup_imap.
  simpl. rewrite AgentStatus_eqb_eq. split.
  - intros [(j & b & [= -> ->] & Hj) Hidle]. now split.
  - intros [Hi Hidle]. split; [|exact Hidle]. now exists i, a.
Qed.

Lemma selectFrom_best (pool : list Agent.t) (task : AgentTask.t) (i : nat) :
  selectFrom pool task = Some i -> best_idle pool task i.
Proof.
  unfold selectFrom.
  destruct (availableAgents pool) as [|e0 es] eqn:Eav; [discriminate|].
  pose proof (sort_head_best (scoredAgents pool task)) as Hbest.
  destruct (head (Array_sort byScore (scoredAgents pool task))) as [m|]; [|discriminate].
  intros [= <-].
  destruct Hbest as (l1 & l2 & Hsplit & Hbefore & Hafter).
  unfold scoredAgents in Hsplit.
  apply map_eq_app in Hsplit as (k1 & k2' & Hav & <- & Hk2).
  apply map_eq_cons in Hk2 as (e & k2 & -> & <- & <-).
  simpl in *.
  pose proof (availableAgents_sorted pool) as Hsorted.
  rewrite Hav in Hsorted.
  assert (In e (availableAgents pool)) as He.
  { rewrite Hav. apply in_or_app. right. now left. }
  destruct e as [i a]. simpl in *.
  apply availableAgents_In in He as [Hi Hidle].
  exists a. repeat split; try assumption.
  - assert (In (j, b) (availableAgents pool)) as Hin by now apply availableAgents_In.
    rewrite Hav in Hin. apply in_app_or in Hin as [Hin | [Hin | Hin]].
    + rewrite Forall_map in Hbefore. rewrite Forall_forall in Hbefore.
      apply list_elem_of_In, Hbefore in Hin. simpl in Hin. lra.
    + injection Hin as <- <-. lra.
    + rewrite Forall_map in Hafter. rewrite Forall_forall in Hafter.
      apply list_elem_of_In, Hafter in Hin. simpl in Hin. exact Hin.
  - intros Hlt.
    assert (In (j, b) (availableAgents pool)) as Hin by now apply availableAgents_In.
    rewrite Hav in Hin. apply in_app_or in Hin as [Hin | [Hin | Hin]].
    + rewrite Forall_map in Hbefore. rewrite Forall_forall in Hbefore.
      apply list_elem_of_In, Hbefore in Hin. simpl in Hin. exact Hin.
    + injection Hin as <- <-. lia.
    + apply StronglySorted_app_1_r in Hsorted.
      apply StronglySorted_cons in Hsorted as [Hall _].
      rewrite Forall_forall in Hall.
      apply list_elem_of_In, Hall in Hin. simpl in Hin. lia.
Qed.


Lemma selectFrom_None (pool : list Agent.t) (task : AgentTask.t) :
  selectFrom pool task = None <->
  forall i a, pool !! i = Some a -> Agent.status a <> idle.
Proof.
  unfold selectFrom. split.
  - destruct (availableAgents pool) as [|e es] eqn:Eav.
    + intros _ i a Hi Hidle.
      assert (In (i, a) (availableAgents pool)) as Hin by now apply availableAgents_In.
      rewrite Eav in Hin. destruct Hin.
    + intros Hnone. exfalso.
      pose proof (Array_sort_Permutation byScore (scoredAgents pool task)) as Hp.
      unfold scoredAgents in Hp. rewrite Eav in Hp.
      unfold scoredAgents in Hnone. rewrite Eav in Hnone.
      destruct (Array_sort byScore _) as [|m rest]; [|discriminate].
      apply Permutation_nil in Hp. discriminate Hp.
  - intros Hbusy. destruct (availableAgents pool) as [|[i a] es] eqn:Eav; [reflexivity|].
    exfalso. apply (Hbusy i a); apply (availableAgents_In pool i a); rewrite Eav; now left.
Qed.


End selection.

(** ** Reasoning about computations *)

Section monad_facts.
Context {S A B : Type}.

Lemma bind_Ok (c : M S A) (k : A -> M S B) (s s' : S) (b : B) :
  bind c k s = (Ok b, s') ->
  exists a s1, c s = (Ok a, s1) /\ k a s1 = (Ok b, s').
Proof.
  unfold bind. destruct (c s) as [[a|e] s1]; [|discriminate].
  intros H. now exists a, s1.
Qed.

Lemma bind_Throw (c : M S A) (k : A -> M S B) (s s' : S) (e : exn) :
  bind c k s = (Throw e, s') ->
  c s = (Throw e, s')
  \/ exists a s1, c s = (Ok a, s1) /\ k a s1 = (Throw e, s').
Proof.
  unfold bind. destruct (c s) as [[a|e0] s1]; intros H.
  - right. now exists a, s1.
  - left. injection H as -> ->. reflexivity.
Qed.

Lemma bind_run (c : M S A) (k : A -> M S B) (s s1 : S) (a : A) :
  c s = (Ok a, s1) -> bind c k s = k a s1.
Proof. unfold bind. now intros ->. Qed.

Lemma bind_run_Throw (c : M S A) (k : A -> M S B) (s s1 : S) (e : exn) :
  c s = (Throw e, s1) -> bind c k s = (Throw e, s1).
Proof. unfold bind. now intros ->. Qed.

(** A handler that returns makes the whole [try] return. *)
Lemma try_catch_returns (c : M S A) (h : exn -> A) (s : S) :
  exists a s', try_catch c (fun e => ret (h e)) s = (Ok a, s').
Proof.
  unfold try_catch, ret. destruct (c s) as [[a|e] s1]; eauto.
Qed.

End monad_facts.

(** ** The knowledge seeker (C6, C7) *)

Section seeker.
Context {W : Type} `{!World W}.
Import KnowledgeSeeker.


Lemma synthesizeKnowledge_item (query : string) (sources : list (option Source.t))
    (w w' : W) (item : KnowledgeItem.t) :
  synthesizeKnowledge query sources w = (Ok item, w') ->
  KnowledgeItem.query item = query
  /\ KnowledgeItem.confidence item = calculateConfidence (validSources sources).
Proof.
  unfold synthesizeKnowledge. intros H.
  apply bind_Ok in H as (content & w1 & _ & H).
  apply bind_Ok in H as (related & w2 & _ & H).
  apply bind_Ok in H as (topic & w3 & _ & H).
  apply bind_Ok in H as (now & w4 & _ & H).
  unfold ret in H. injection H as <- _. split; reflexivity.
Qed.

(** Each of the three lookups handles its own failure, so gathering the
    sources of a query always returns. *)
Lemma gatherSources_returns (query : string) (w : W) :
  exists sources w', gatherSources query w = (Ok sources, w').
Proof.
  unfold gatherSources.
  assert (exists web w1, searchWeb query w = (Ok web, w1)) as (web & w1 & Hweb).
  { unfold searchWeb. apply (try_catch_returns _ (fun _ => [])). }
  rewrite (bind_run _ _ _ _ _ Hweb).
  assert (exists wiki w2, searchWikipedia query w1 = (Ok wiki, w2)) as (wiki & w2 & Hwiki).
  { unfold searchWikipedia. apply (try_catch_returns _ (fun _ => [])). }
  rewrite (bind_run _ _ _ _ _ Hwiki).
  assert (exists ai w3, generateAIInsights query w2 = (Ok ai, w3)) as (ai & w3 & Hai).
  { unfold generateAIInsights. apply (try_catch_returns _ (fun _ => None)). }
  rewrite (bind_run _ _ _ _ _ Hai). unfold ret. eauto.
Qed.

Lemma seekLoop_seeks (queries : list string) (acc : list KnowledgeItem.t) (w : W) :
  exists items w',
    seekLoop queries acc w = (Ok (acc ++ items)%list, w') /\ seeks queries w items w'.
Proof.
  revert acc w. induction queries as [|q queries IH]; intros acc w; simpl.
  - exists [], w. rewrite app_nil_r. split; [reflexivity | constructor].
  - unfold bind at 1, try_catch, bind at 1.
    destruct (seekOne q w) as [[item|e] w1] eqn:Hone; simpl.
    + destruct (IH (acc ++ [item])%list w1) as (items & w' & Hloop & Hseeks).
      exists (item :: items), w'. split.
      * rewrite Hloop. now rewrite <- app_assoc.
      * econstructor; eassumption.
    + destruct (IH acc w1) as (items & w' & Hloop & Hseeks).
      exists items, w'. split; [exact Hloop|].
      eapply seeks_omit; eassumption.
Qed.

(** C7: for every batch of queries, [seekKnowledge] returns (it does not
    throw), and what it returns is the sequence of the items of the queries
    whose processing succeeded, in order: a query whose processing throws is
    left out and the queries after it are still processed. *)
Theorem seekKnowledge_isolates_failures (queries : list string) (w : W) :
  exists items w',
    seekKnowledge queries w = (Ok items, w') /\ seeks queries w items w'.
Proof.
  unfold seekKnowledge.
  destruct (seekLoop_seeks queries [] w) as (items & w' & Hloop & Hseeks).
  now exists items, w'.
Qed.

Lemma seekOne_inv (q : string) (w0 w1 : W) (item : KnowledgeItem.t) :
  seekOne q w0 = (Ok item, w1) ->
  exists sources w,
    gatherSources q w0 = (Ok sources, w) /\ synthesizeKnowledge q sources w = (Ok item, w1).
Proof.
  unfold seekOne. intros H. apply bind_Ok in H as (sources & w & Hg & Hs). eauto.
Qed.

Lemma seeks_In (qs : list string) (w w' : W) (items : list KnowledgeItem.t)
    (item : KnowledgeItem.t) :
  seeks qs w items w' -> In item items ->
  exists q w0 w1, In q qs /\ seekOne q w0 = (Ok item, w1).
Proof.
  induction 1 as [w | q qs w it w1 items w2 Hone _ IH | q qs w e w1 items w2 _ _ IH];
    intros Hin.
  - destruct Hin.
  - destruct Hin as [<- | Hin].
    + exists q, w, w1. split; [now left | exact Hone].
    + destruct (IH Hin) as (q' & w0 & w3 & Hq & Hone'). exists q', w0, w3.
      split; [now right | exact Hone'].
  - destruct (IH Hin) as (q' & w0 & w3 & Hq & Hone'). exists q', w0, w3.
    split; [now right | exact Hone'].
Qed.

(** The result has at most one item per query. *)
Lemma seeks_length (qs : list string) (w w' : W) (items : list KnowledgeItem.t) :
  seeks qs w items w' -> (length items <= length qs)%nat.
Proof. induction 1; simpl; lia. Qed.

(** The queries that succeeded, in order, are among the queries asked. *)
Lemma seeks_sublist (qs : list string) (w w' : W) (items : list KnowledgeItem.t) :
  seeks qs w items w' -> sublist (map KnowledgeItem.query items) qs.
Proof.
  induction 1 as [w | q qs w it w1 items w2 Hone _ IH | q qs w e w1 items w2 _ _ IH];
    simpl.
  - constructor.
  - apply seekOne_inv in Hone as (sources & w0 & _ & Hs).
    apply synthesizeKnowledge_item in Hs as [-> _]. now apply sublist_skip.
  - now apply sublist_cons.
Qed.


(** The placeholder web search always contributes one valid source, so
    the lowest step of the confidence rule is never taken. *)
Lemma gatherSources_web (query : string) (w w' : W) (sources : list (option Source.t)) :
  gatherSources query w = (Ok sources, w') ->
  (1 <= length (validSources sources))%nat.
Proof.
  unfold gatherSources. intros H.
  apply bind_Ok in H as (web & w1 & Hweb & H).
  apply bind_Ok in H as (wiki & w2 & _ & H).
  apply bind_Ok in H as (ai & w3 & _ & H).
  unfold ret in H. injection H as <- _.
  unfold searchWeb, try_catch, performWebSearch, bind, ret in Hweb.
  injection Hweb as <- _. unfold validSources. simpl. lia.
Qed.

End seeker.

(** ** What a computation leaves alone *)

Section preservation.
Context {W : Type} `{!World W}.

#[global] Instance keeps_preorder {X} (f : System W -> X) : PreOrder (keeps f).
Proof.
  split.
  - intros s. reflexivity.
  - intros s1 s2 s3 H12 H23. unfold keeps in *. congruence.
Qed.

#[global] Instance keeps_task_preorder : PreOrder keeps_task.
Proof.
  split.
  - intros a. split; auto.
  - intros a b c [Hab1 Hab2] [Hbc1 Hbc2]. split; [congruence | auto].
Qed.

#[global] Instance holds_on_preorder : PreOrder holds_on.
Proof.
  split.
  - intros a. split; [reflexivity | now left].
  - intros a b c [Hab1 Hab2] [Hbc1 Hbc2]. split; [congruence|].
    destruct Hbc2 as [Hbc2 | Hbc2]; [rewrite Hbc2; exact Hab2 | now right].
Qed.

#[global] Instance agent_step_preorder (i : nat) (P : relation Agent.t) `{!PreOrder P} :
  PreOrder (agent_step (W := W) i P).
Proof.
  split.
  - intros s. exists (fun a => a). split; [|reflexivity].
    symmetry. apply list_alter_id. reflexivity.
  - intros s1 s2 s3 (F & HF & HPF) (G & HG & HPG).
    exists (fun a => G (F a)). split.
    + rewrite HG, HF. apply list_alter_alter_eq.
    + intros a. transitivity (F a); [apply HPF | apply HPG].
Qed.

Lemma agent_step_same (i : nat) (P : relation Agent.t) `{!PreOrder P} (s s' : System W) :
  agents s' = agents s -> agent_step i P s s'.
Proof.
  intros Heq. exists (fun a => a). split; [|reflexivity].
  rewrite Heq. symmetry. apply list_alter_id. reflexivity.
Qed.

Lemma agent_step_assign (i : nat) (P : relation Agent.t) (f : Agent.t -> Agent.t)
    (s : System W) :
  (forall a, P a (f a)) -> agent_step i P s (set_agents (alter f i) s).
Proof. intros Hf. now exists f. Qed.

Section rules.
Context (R : relation (System W)) `{!PreOrder R}.

Lemma preserves_ret {A} (a : A) : preserves R (ret a).
Proof. intros s r s' [= <- <-]. reflexivity. Qed.

Lemma preserves_throw {A} (e : exn) : preserves R (throw (A := A) e).
Proof. intros s r s' [= <- <-]. reflexivity. Qed.

Lemma preserves_gets {A} (f : System W -> A) : preserves R (gets f).
Proof. intros s r s' [= <- <-]. reflexivity. Qed.

Lemma preserves_of_outcome {A} (o : outcome A) : preserves R (of_outcome o).
Proof. intros s r s' [= <- <-]. reflexivity. Qed.

Lemma preserves_bind {A B} (c : M (System W) A) (k : A -> M (System W) B) :
  preserves R c -> (forall a, preserves R (k a)) -> preserves R (bind c k).
Proof.
  intros Hc Hk s r s'. unfold bind.
  destruct (c s) as [[a|e] s1] eqn:E; intros H.
  - transitivity s1; [eapply Hc | eapply Hk]; eassumption.
  - injection H as <- <-. eapply Hc; eassumption.
Qed.

Lemma preserves_try_catch {A} (c : M (System W) A) (h : exn -> M (System W) A) :
  preserves R c -> (forall e, preserves R (h e)) -> preserves R (try_catch c h).
Proof.
  intros Hc Hh s r s'. unfold try_catch.
  destruct (c s) as [[a|e] s1] eqn:E; intros H.
  - injection H as <- <-. eapply Hc; eassumption.
  - transitivity s1; [eapply Hc | eapply Hh]; eassumption.
Qed.

Lemma preserves_for_of {A} (l : list A) (body : A -> M (System W) unit) :
  (forall x, preserves R (body x)) -> preserves R (for_of l body).
Proof.
  intros Hbody. induction l as [|x l IH]; simpl.
  - apply preserves_ret.
  - apply preserves_bind; [apply Hbody | intros _; exact IH].
Qed.

Lemma preserves_modify (f : System W -> System W) :
  (forall s, R s (f s)) -> preserves R (modify f).
Proof. intros Hf s r s' [= <- <-]. apply Hf. Qed.

Lemma preserves_in_world {A} (c : M W A) :
  (forall s w, R s (set_world w s)) -> preserves R (in_world c).
Proof.
  intros Hw s r s'. unfold in_world. destruct (c (world s)) as [r0 w].
  intros [= <- <-]. apply Hw.
Qed.

Lemma preserves_execute (now : Z) (text : string) (params : list Db.value) :
  (forall s d, R s (set_database d s)) ->
  preserves R (fun s => let '(r, d) := Db.execute now text params (database s) in
                        (r, set_database d s)).
Proof.
  intros Hd s r s'. destruct (Db.execute now text params (database s)) as [r0 d].
  intros [= <- <-]. apply Hd.
Qed.

End rules.

End preservation.

(** Breaks a goal [preserves R c] down along the structure of [c]; [leaf]
    proves that the state changes left at the leaves are within [R]. *)
Ltac preserve_with leaf :=
  repeat first
    [ progress intros
    | apply preserves_ret; [typeclasses eauto]
    | apply preserves_throw; [typeclasses eauto]
    | apply preserves_gets; [typeclasses eauto]
    | apply preserves_of_outcome; [typeclasses eauto]
    | apply preserves_bind; [typeclasses eauto | |]
    | apply preserves_try_catch; [typeclasses eauto | |]
    | apply preserves_for_of; [typeclasses eauto |]
    | apply preserves_modify; [intros; leaf]
    | apply preserves_in_world; [intros; leaf]
    | apply preserves_execute; [intros; leaf]
    | match goal with
      | |- preserves _ (match ?x with _ => _ end) => destruct x
      | |- preserves _ (if ?x then _ else _) => destruct x
      end ].

(** For [R] of the form [keeps f]: the changes at the leaves do not touch
    [f]. *)
Ltac preserve := preserve_with ltac:(reflexivity).

(** ** What the orchestrator's steps change *)

Ltac unfold_orchestrator :=
  unfold AgentOrchestrator.processTask, AgentOrchestrator.processTask_try,
    AgentOrchestrator.processTask_catch, AgentOrchestrator.processTask_gather,
    AgentOrchestrator.processTask_finish, AgentOrchestrator.beginTask,
    AgentOrchestrator.finishTask, AgentOrchestrator.tick, AgentOrchestrator.tick_begin,
    AgentOrchestrator.resumeCuriousExploration, AgentOrchestrator.submitTask,
    AgentOrchestrator.taskStatus, AgentOrchestrator.storeTaskResult,
    AgentOrchestrator.updateUserContext, AgentOrchestrator.updateAgentKnowledge,
    AgentOrchestrator.triggerCuriousExploration,
    AgentOrchestrator.generateKnowledgeQueries, AgentOrchestrator.selectAgent,
    AgentOrchestrator.assign, emit, TaskQueue.addTask, TaskQueue.getNextTask,
    DatabaseManager.query, DatabaseManager.pool_query, reach.

(** A leaf either leaves the agents alone or assigns within [keeps_task]. *)
Ltac task_leaf :=
  first
    [ apply agent_step_same; [typeclasses eauto | reflexivity]
    | apply agent_step_assign; intros ?; split; simpl; auto; discriminate ].

(** A leaf either leaves the agents alone or assigns within [holds_on]. *)
Ltac holds_leaf :=
  first
    [ apply agent_step_same; [typeclasses eauto | reflexivity]
    | apply agent_step_assign; intros ?; split; simpl; auto ].

Section effects.
Context {W : Type} `{!World W}.
Import AgentOrchestrator.

Lemma gather_keeps_io (task : AgentTask.t) :
  preserves (keeps io) (processTask_gather task).
Proof. unfold_orchestrator. preserve. Qed.

Lemma gather_keeps_database (task : AgentTask.t) :
  preserves (keeps database) (processTask_gather task).
Proof. unfold_orchestrator. preserve. Qed.

Lemma gather_keeps_taskQueue (task : AgentTask.t) :
  preserves (keeps taskQueue) (processTask_gather task).
Proof. unfold_orchestrator. preserve. Qed.

Lemma gather_keeps_attempts (task : AgentTask.t) :
  preserves (keeps attempts) (processTask_gather task).
Proof. unfold_orchestrator. preserve. Qed.

Lemma finish_keeps_taskQueue (task : AgentTask.t) (i : nat) (c : Context)
    (k : list KnowledgeItem.t) :
  preserves (keeps taskQueue) (processTask_finish task i c k).
Proof. unfold_orchestrator. preserve. Qed.

Lemma finish_keeps_attempts (task : AgentTask.t) (i : nat) (c : Context)
    (k : list KnowledgeItem.t) :
  preserves (keeps attempts) (processTask_finish task i c k).
Proof. unfold_orchestrator. preserve. Qed.

Lemma finish_keeps_explorations (task : AgentTask.t) (i : nat) (c : Context)
    (k : list KnowledgeItem.t) :
  preserves (keeps explorations) (processTask_finish task i c k).
Proof. unfold_orchestrator. preserve. Qed.

Lemma catch_keeps_agents (task : AgentTask.t) (e : exn) :
  preserves (keeps agents) (processTask_catch (W := W) task e).
Proof. unfold_orchestrator. preserve. Qed.

Lemma submitTask_keeps_agents (userId prompt : string) (context : json) :
  preserves (keeps agents) (submitTask userId prompt context).
Proof. unfold_orchestrator. preserve. Qed.

Lemma submitTask_keeps_io (userId prompt : string) (context : json) :
  preserves (keeps io) (submitTask userId prompt context).
Proof. unfold_orchestrator. preserve. Qed.

Lemma updateAgentKnowledge_holds (i : nat) (knowledge : list KnowledgeItem.t) :
  preserves (agent_step i holds_on) (updateAgentKnowledge i knowledge).
Proof. unfold_orchestrator. preserve_with ltac:(holds_leaf). Qed.

Lemma gather_none (task : AgentTask.t) (s : System W) :
  selectFrom (agents s) task = None ->
  processTask_gather task s = (Throw (JsError "No suitable agent available"), s).
Proof.
  intros Hsel. unfold processTask_gather, selectAgent, bind, gets. now rewrite Hsel.
Qed.

(** When an agent is selected, the first part of an attempt, however it
    ends, leaves that agent holding the task with status [busy] or
    [learning], and the other agents as they were. *)
Lemma gather_some (task : AgentTask.t) (s s' : System W) (i : nat)
    (r : outcome (nat * Context * list KnowledgeItem.t)) :
  selectFrom (agents s) task = Some i ->
  processTask_gather task s = (r, s') ->
  (exists F, agents s' = alter F i (agents s)
     /\ forall a, Agent.currentTask (F a) = Some (AgentTask.id task)
                  /\ (Agent.status (F a) = busy \/ Agent.status (F a) = learning))
  /\ forall x, r = Ok x -> fst (fst x) = i.
Proof.
  intros Hsel Hrun. unfold processTask_gather in Hrun.
  rewrite (bind_run (selectAgent task) _ s s (Some i)) in Hrun
    by (unfold selectAgent, gets; now rewrite Hsel).
  rewrite (bind_run (assign i (Agent.set_status busy)) _ s _ tt eq_refl) in Hrun.
  rewrite (bind_run (assign i (Agent.set_currentTask (Some (AgentTask.id task)))) _ _ _ tt
             eq_refl) in Hrun.
  split.
  - match type of Hrun with
    | ?c ?s2 = _ =>
        assert (preserves (agent_step i holds_on) c) as Hrest
          by (unfold_orchestrator; preserve_with ltac:(holds_leaf));
        destruct (Hrest _ _ _ Hrun) as (F & HF & Hholds)
    end.
    exists (fun a => F (Agent.set_currentTask (Some (AgentTask.id task))
                          (Agent.set_status busy a))).
    split.
    + rewrite HF. simpl. rewrite !list_alter_alter_eq. reflexivity.
    + intros a. destruct (Hholds (Agent.set_currentTask (Some (AgentTask.id task))
                                    (Agent.set_status busy a))) as [Hcur Hst].
      simpl in Hcur, Hst. split; [exact Hcur|]. destruct Hst; auto.
  - intros x ->.
    apply bind_Ok in Hrun as (context & s1 & _ & Hrun).
    apply bind_Ok in Hrun as (queries & s2 & _ & Hrun).
    apply bind_Ok in Hrun as (gathered & s3 & _ & Hrun).
    apply bind_Ok in Hrun as (u & s4 & _ & Hrun).
    unfold ret in Hrun. now injection Hrun as <- _.
Qed.

End effects.

(** ** The database *)

Section database_facts.
Context {W : Type} `{!World W}.

Lemma execute_Throw (now : Z) (text : string) (params : list Db.value) (d d' : Db.t)
    (e : exn) :
  Db.execute now text params d = (Throw e, d') -> d' = d.
Proof.
  unfold Db.execute.
  repeat match goal with
         | |- context [if ?b then _ else _] => destruct b
         | |- context [match ?x with _ => _ end] => destruct x
         end;
    intros [= ]; reflexivity || (subst; reflexivity).
Qed.

Lemma execute_update (now : Z) (r s i : string) (d : Db.t) :
  Db.execute now Db.update_result_sql [Db.VText r; Db.VText s; Db.VText i] d
  = match Db.tasks d !! i with
    | Some row =>
        (Ok (Db.mkResult [] 1),
         Db.mk (Db.users d)
           (<[i := Db.mkRow (Db.id row) (Db.user_id row) (Db.prompt row) (Db.context row)
                            (Some r) s (Db.priority row) (Db.created_at row) now]>
              (Db.tasks d)))
    | None => (Ok (Db.mkResult [] 0), d)
    end.
Proof. reflexivity. Qed.

Lemma execute_insert (now : Z) (i u p c s : string) (ca ua : Z) (d : Db.t) :
  Db.execute now Db.insert_task_sql
    [Db.VText i; Db.VText u; Db.VText p; Db.VText c; Db.VText s; Db.VTime ca; Db.VTime ua] d
  = if bool_decide (u ∈ Db.users d) then
      match Db.tasks d !! i with
      | Some _ => (Throw (JsError "duplicate key value violates unique constraint"), d)
      | None =>
          (Ok (Db.mkResult [] 1),
           Db.mk (Db.users d)
             (<[i := Db.mkRow i u p c None s Db.default_priority ca ua]> (Db.tasks d)))
      end
    else (Throw (JsError "insert or update on table violates foreign key constraint"), d).
Proof. reflexivity. Qed.

Lemma execute_select (now : Z) (i u : string) (d : Db.t) :
  Db.execute now Db.select_task_sql [Db.VText i; Db.VText u] d
  = match Db.tasks d !! i with
    | Some row =>
        if String.eqb (Db.user_id row) u then (Ok (Db.mkResult [row] 1), d)
        else (Ok (Db.mkResult [] 0), d)
    | None => (Ok (Db.mkResult [] 0), d)
    end.
Proof. reflexivity. Qed.

(** A query either fails before reaching the server, and the database is
    as before, or it is one execution of its statement. *)
Lemma query_database (text : string) (params : list Db.value) (s s' : System W)
    (r : outcome Db.QueryResult) :
  DatabaseManager.query text params s = (r, s') ->
  (database s' = database s /\ exists e, r = Throw e)
  \/ exists now, Db.execute now text params (database s) = (r, database s').
Proof.
  unfold DatabaseManager.query, DatabaseManager.pool_query, reach,
    bind, try_catch, in_world, total, ret, throw.
  destruct (Date_now (world s)) as [start w1]. simpl.
  destruct (store_fault Postgres w1) as [[fault|] w2]; simpl.
  - intros [= <- <-]. left. split; [reflexivity | eauto].
  - destruct (Date_now w2) as [now w3]. simpl.
    destruct (Db.execute now text params (database s)) as [[res|e] d] eqn:E; simpl.
    + destruct (Date_now w3) as [finish w4]. intros [= <- <-]. right. now exists now.
    + intros [= <- <-]. right. now exists now.
Qed.

End database_facts.

(** ** The second part of an attempt *)

Section finishing.
Context {W : Type} `{!World W}.
Import AgentOrchestrator.

Lemma storeTaskResult_database (taskId : string) (result : json) (s s' : System W)
    (r : outcome unit) :
  storeTaskResult taskId result s = (r, s') ->
  match r with
  | Ok _ => exists now res,
      Db.execute now Db.update_result_sql
        [Db.VText (JSON_stringify result); Db.VText "completed"; Db.VText taskId]
        (database s) = (Ok res, database s')
  | Throw _ => database s' = database s
  end.
Proof.
  unfold storeTaskResult. intros H. destruct r as [u|e].
  - apply bind_Ok in H as (res & s1 & Hq & Hret).
    unfold ret in Hret. injection Hret as _ <-.
    apply query_database in Hq as [[_ [e He]] | [now Hq]]; [discriminate He|].
    now exists now, res.
  - apply bind_Throw in H as [Hq | (res & s1 & _ & Hret)]; [|discriminate Hret].
    apply query_database in Hq as [[Hsame _] | [now Hq]]; [exact Hsame|].
    now apply execute_Throw in Hq.
Qed.

Lemma storeTaskResult_quiet (taskId : string) (result : json) :
  preserves (keeps pool_and_channel) (storeTaskResult taskId result).
Proof. unfold_orchestrator. preserve. Qed.

Lemma updateUserContext_quiet (userId prompt : string) (result : json) :
  preserves (keeps (fun s => (pool_and_channel s, database s)))
            (updateUserContext userId prompt result).
Proof. unfold_orchestrator. preserve. Qed.

Lemma processor_quiet (task : AgentTask.t) (c : Context) (k : list KnowledgeItem.t)
    (object : option Agent.t) :
  preserves (keeps (fun s => (pool_and_channel s, database s)))
    (match object with
     | Some a => in_world (taskProcessor_processTask task c k a)
     | None => throw (JsError "Cannot read properties of undefined")
     end).
Proof. preserve. Qed.

(** An attempt that throws in its second part has changed neither the agents
    nor the channel, and has at most stored its result. *)
Lemma finish_Throw (task : AgentTask.t) (i : nat) (c : Context)
    (k : list KnowledgeItem.t) (s s' : System W) (e : exn) :
  processTask_finish task i c k s = (Throw e, s') ->
  agents s' = agents s /\ io s' = io s
  /\ (database s' = database s \/ result_stored task (database s) (database s')).
Proof.
  unfold processTask_finish. intros H.
  apply bind_Throw in H as [H | (object & s1 & H1 & H)]; [discriminate H|].
  unfold gets in H1. injection H1 as <- <-.
  apply bind_Throw in H as [H | (result & s2 & H2 & H)].
  { apply processor_quiet in H. injection H as Ha Hio Hdb. auto. }
  apply processor_quiet in H2. injection H2 as Ha2 Hio2 Hdb2.
  apply bind_Throw in H as [H | ([] & s3 & H3 & H)].
  { pose proof (storeTaskResult_quiet _ _ _ _ _ H) as Hq. injection Hq as Ha Hio.
    apply storeTaskResult_database in H. simpl in H.
    repeat split; [congruence | congruence | left; congruence]. }
  pose proof (storeTaskResult_quiet _ _ _ _ _ H3) as Hq3. injection Hq3 as Ha3 Hio3.
  apply storeTaskResult_database in H3 as (now & res & Hstored).
  apply bind_Throw in H as [H | ([] & s4 & H4 & H)].
  { apply updateUserContext_quiet in H. injection H as Ha Hio Hdb.
    repeat split; [congruence | congruence |].
    right. exists now, result, res. rewrite Hdb, <- Hdb2. exact Hstored. }
  discriminate H.
Qed.

(** An attempt that returns has stored its result, published one completion
    event and released its agent. *)
Lemma finish_Ok (task : AgentTask.t) (i : nat) (c : Context)
    (k : list KnowledgeItem.t) (s s' : System W) (u : unit) :
  processTask_finish task i c k s = (Ok u, s') ->
  agents s' = alter (fun a => Agent.set_currentTask None (Agent.set_status idle a)) i
                    (agents s)
  /\ (exists result name,
        io s' = (io s ++ [mkEmitted ("user-" ++ AgentTask.userId task) "task-progress"
                            (TaskProgress (AgentTask.id task) "completed" result name)])%list)
  /\ result_stored task (database s) (database s').
Proof.
  unfold processTask_finish. intros H.
  apply bind_Ok in H as (object & s1 & H1 & H).
  unfold gets in H1. injection H1 as <- <-.
  apply bind_Ok in H as (result & s2 & H2 & H).
  apply processor_quiet in H2. injection H2 as Ha2 Hio2 Hdb2.
  apply bind_Ok in H as ([] & s3 & H3 & H).
  pose proof (storeTaskResult_quiet _ _ _ _ _ H3) as Hq3. injection Hq3 as Ha3 Hio3.
  apply storeTaskResult_database in H3 as (now & res & Hstored).
  apply bind_Ok in H as ([] & s4 & H4 & H).
  apply updateUserContext_quiet in H4. injection H4 as Ha4 Hio4 Hdb4.
  unfold emit, assign, bind, modify in H. injection H as H. subst s'.
  cbn [agents io database set_agents set_io].
  repeat split.
  - rewrite list_alter_alter_eq, Ha4, Ha3, Ha2. reflexivity.
  - exists result, (from_option Agent.name "" (agents s !! i)). congruence.
  - exists now, result, res. rewrite Hdb4, <- Hdb2. exact Hstored.
Qed.

End finishing.

(** ** Processing attempts (C1, C2, C3) *)

Section attempts.
Context {W : Type} `{!World W}.
Import AgentOrchestrator.

Lemma processTask_try_Throw (task : AgentTask.t) (s s1 : System W) (e : exn) :
  processTask_try task s = (Throw e, s1) ->
  io s1 = io s
  /\ (database s1 = database s \/ result_stored task (database s) (database s1)).
Proof.
  unfold processTask_try. intros H.
  apply bind_Throw in H as [H | (x & s0 & Hg & H)].
  - pose proof (gather_keeps_io _ _ _ _ H) as Hio.
    pose proof (gather_keeps_database _ _ _ _ H) as Hdb. auto.
  - pose proof (gather_keeps_io _ _ _ _ Hg) as Hio.
    pose proof (gather_keeps_database _ _ _ _ Hg) as Hdb.
    apply finish_Throw in H as (_ & Hio' & Hdb').
    unfold keeps in *. rewrite Hdb in Hdb'. split; [congruence | exact Hdb'].
Qed.

(** Executing the attempt's statement writes no status but "completed". *)
Lemma result_stored_status (task : AgentTask.t) (d d' : Db.t) (k : string)
    (row : Db.task_row) :
  result_stored task d d' ->
  Db.tasks d' !! k = Some row ->
  Db.tasks d !! k = Some row
  \/ (k = AgentTask.id task /\ Db.status row = "completed").
Proof.
  intros (now & result & res & Hexec) Hrow.
  rewrite execute_update in Hexec.
  destruct (Db.tasks d !! AgentTask.id task) as [old|] eqn:Hold.
  - injection Hexec as _ <-. simpl in Hrow.
    destruct (decide (k = AgentTask.id task)) as [-> | Hne].
    + rewrite lookup_insert_eq in Hrow. injection Hrow as <-. right. now split.
    + rewrite lookup_insert_ne in Hrow by congruence. now left.
  - injection Hexec as _ <-. now left.
Qed.

(** C3, as the code has it: when an attempt fails after an agent has been
    selected, [processTask] itself returns, exactly one event is added to
    the channel, a [task-error] for the submitting user's room that carries
    the error's message, and no row is given the status "failed": the table
    is as before, or the attempt's own update has marked the task
    "completed". *)
Theorem processTask_failure_outcome (task : AgentTask.t) (s s1 : System W) (i : nat)
    (e : exn) :
  selectFrom (agents s) task = Some i ->
  processTask_try task s = (Throw e, s1) ->
  exists s',
    processTask task s = (Ok tt, s')
    /\ io s' = (io s ++ [mkEmitted ("user-" ++ AgentTask.userId task) "task-error"
                          (TaskError (AgentTask.id task) (published_error e))])%list
    /\ (database s' = database s \/ result_stored task (database s) (database s'))
    /\ forall k row, Db.tasks (database s') !! k = Some row ->
         Db.status row = "failed" -> Db.tasks (database s) !! k = Some row.
Proof.
  intros _ Htry.
  destruct (processTask_try_Throw _ _ _ _ Htry) as [Hio Hdb].
  eexists. split.
  { unfold processTask, try_catch. rewrite Htry.
    unfold processTask_catch, emit, modify. reflexivity. }
  cbn [io database set_io]. split; [|split].
  - rewrite Hio. destruct e; reflexivity.
  - exact Hdb.
  - intros k row Hrow Hfailed. destruct Hdb as [Hdb | Hdb].
    + now rewrite <- Hdb.
    + destruct (result_stored_status _ _ _ _ _ Hdb Hrow) as [Hsame | [_ Hcompleted]].
      * exact Hsame.
      * rewrite Hfailed in Hcompleted. discriminate Hcompleted.
Qed.


(** ... and every failure after selection leaves it holding the task, with
    status [busy] or [learning]: the [catch] block does not release it. *)
Lemma processTask_failure_holds (task : AgentTask.t) (s s1 : System W) (i : nat)
    (e : exn) :
  selectFrom (agents s) task = Some i ->
  processTask_try task s = (Throw e, s1) ->
  exists a, agents (snd (processTask task s)) !! i = Some a
    /\ Agent.currentTask a = Some (AgentTask.id task)
    /\ (Agent.status a = busy \/ Agent.status a = learning).
Proof.
  intros Hsel Htry.
  assert (agents (snd (processTask task s)) = agents s1) as ->.
  { unfold processTask, try_catch. rewrite Htry. reflexivity. }
  pose proof Hsel as Hbest. apply selectFrom_best in Hbest as (a0 & Hi & _).
  unfold processTask_try in Htry.
  apply bind_Throw in Htry as [Hg | (x & s0 & Hg & Hf)].
  - destruct (gather_some _ _ _ _ _ Hsel Hg) as [(F & HF & HFa) _].
    exists (F a0). split; [|apply HFa].
    rewrite HF, list_lookup_alter_eq, Hi. reflexivity.
  - destruct (gather_some _ _ _ _ _ Hsel Hg) as [(F & HF & HFa) _].
    apply finish_Throw in Hf as (Ha & _).
    exists (F a0). split; [|apply HFa].
    rewrite Ha, HF, list_lookup_alter_eq, Hi. reflexivity.
Qed.

(** C2, as the code has it: when a task is dequeued while every agent is
    busy, the attempt is given up, the agents and the table are as before
    (the task's row stays "pending"), the task is not put back in the
    queue, and one [task-error] event saying that no suitable agent is
    available is published on the user's channel. *)
Theorem tick_without_idle_agent (s : System W) (task : AgentTask.t)
    (rest : list AgentTask.t) (w1 : W) :
  taskQueue s = task :: rest ->
  store_fault Redis (world s) = (None, w1) ->
  (forall i a, agents s !! i = Some a -> Agent.status a = busy) ->
  tick s =
  (Ok tt,
   mkSystem (agents s) (explorations s) (attempts s) rest (database s)
     (io s ++ [mkEmitted ("user-" ++ AgentTask.userId task) "task-error"
                 (TaskError (AgentTask.id task) "No suitable agent available")])
     w1).
Proof.
  intros Hq Hredis Hbusy.
  assert (selectFrom (agents s) task = None) as Hsel.
  { apply selectFrom_None. intros i a Hi. rewrite (Hbusy i a Hi). discriminate. }
  unfold tick, TaskQueue.getNextTask, reach, try_catch, bind, in_world, total, gets,
    modify, ret.
  rewrite Hredis. simpl. rewrite Hq. simpl.
  unfold processTask, try_catch, processTask_try, bind.
  rewrite gather_none by exact Hsel.
  reflexivity.
Qed.

End attempts.

(** ** Selection is a function of the pool and the task (C9) *)

Section determinism.
Context {W : Type} `{!World W}.
Import AgentOrchestrator.


End determinism.

(** ** Concrete runs *)

Section runs.
Import AgentOrchestrator Scenario.


Example aria_is_first : initializeAgents [] !! 0%nat = Some aria.
Proof. reflexivity. Qed.

(** Zephyr and Nova score the same for a prompt that matches no tag of
    either; Zephyr, which comes first in the pool, is selected once Aria
    and Sage are busy. *)
Example tie_broken_by_pool_order :
  let pool := alter (Agent.set_status busy) 2%nat
                (alter (Agent.set_status busy) 0%nat (initializeAgents [])) in
  match scoredAgents pool task1 with
  | [zephyr; nova] =>
      ref zephyr = 1%nat /\ ref nova = 3%nat /\ score zephyr == score nova
  | _ => False
  end
  /\ selectFrom pool task1 = Some 1%nat.
Proof. vm_compute. repeat split; reflexivity. Qed.


(** Other whitespace does not separate keywords. *)
Example tab_is_no_separator :
  let task := AgentTask.mk "task-3" alice ("data" ++ String (ascii_of_nat 9) "mining")
                JNull 1 pending 0 0 in
  Spec.specializationMatchCount aria task = 1%nat
  /\ length (matchedTags aria task) = 0%nat.
Proof. vm_compute. split; reflexivity. Qed.

(** C1 at a failing input: the task processor throws for [task1], which
    was given to Aria; after [processTask] Aria still has status [busy] and
    still holds the task. *)
Theorem failed_attempt_leaves_agent_busy :
  selectFrom (agents (submitted stubborn)) task1 = Some 0%nat
  /\ fst (processTask_try task1 (submitted stubborn))
     = Throw (JsError "AI generation failed")
  /\ (fun a => (Agent.status a, Agent.currentTask a))
       <$> agents (snd (processTask task1 (submitted stubborn))) !! 0%nat
     = Some (busy, Some "task-1").
Proof. vm_compute. repeat split; reflexivity. Qed.

(** The same task in a world where the processor works is released. *)
Example successful_attempt_releases_agent :
  fst (processTask_try task1 (submitted calm)) = Ok tt
  /\ (fun a => (Agent.status a, Agent.currentTask a))
       <$> agents (snd (processTask task1 (submitted calm))) !! 0%nat
     = Some (idle, None).
Proof. vm_compute. split; reflexivity. Qed.

(** With every agent busy, a tick does publish an event and the task does
    not stay retrievable, against the specification: the tick publishes a
    [task-error] event and the task is in the queue no more. *)
Lemma busy_pool_tick_publishes_error :
  Forall (fun a => Agent.status a = busy) (agents all_busy)
  /\ taskQueue all_busy = [task1]
  /\ io all_busy = []
  /\ io (snd (tick all_busy))
     = [mkEmitted ("user-" ++ alice) "task-error"
          (TaskError "task-1" "No suitable agent available")]
  /\ taskQueue (snd (tick all_busy)) = [].
Proof. vm_compute. repeat split; repeat constructor. Qed.

Lemma tick_without_idle_agent_witness :
  taskQueue all_busy = task1 :: []
  /\ store_fault Redis (world all_busy) = (None, world all_busy)
  /\ (forall i a, agents all_busy !! i = Some a -> Agent.status a = busy)
  /\ tick all_busy =
     (Ok tt,
      mkSystem (agents all_busy) (explorations all_busy) (attempts all_busy) []
        (database all_busy)
        (io all_busy ++ [mkEmitted ("user-" ++ AgentTask.userId task1) "task-error"
                           (TaskError (AgentTask.id task1) "No suitable agent available")])
        (world all_busy)).
Proof.
  assert (forall i a, agents all_busy !! i = Some a -> Agent.status a = busy) as Hbusy.
  { intros [|[|[|[|i]]]] a; simpl; intros [= <-]; reflexivity. }
  split; [reflexivity|]. split; [reflexivity|]. split; [exact Hbusy|].
  apply (tick_without_idle_agent all_busy task1 [] (world all_busy));
    [reflexivity | reflexivity | exact Hbusy].
Defined.

(** A failed attempt does not mark the task "failed", against the
    specification: after the attempt of [task1] in which the task processor
    throws, the row of the task still says "pending". *)
Lemma failed_attempt_leaves_row_pending :
  selectFrom (agents (submitted stubborn)) task1 = Some 0%nat
  /\ fst (processTask_try task1 (submitted stubborn))
     = Throw (JsError "AI generation failed")
  /\ Db.status <$> Db.tasks (database (snd (processTask task1 (submitted stubborn))))
                     !! "task-1"
     = Some "pending"
  /\ "pending" <> "failed".
Proof. vm_compute. repeat split; try reflexivity. discriminate. Qed.

Lemma processTask_failure_outcome_witness :
  selectFrom (agents (submitted stubborn)) task1 = Some 0%nat
  /\ processTask_try task1 (submitted stubborn)
     = (Throw (JsError "AI generation failed"),
        snd (processTask_try task1 (submitted stubborn)))
  /\ exists s',
       processTask task1 (submitted stubborn) = (Ok tt, s')
       /\ io s' = (io (submitted stubborn)
                   ++ [mkEmitted ("user-" ++ AgentTask.userId task1) "task-error"
                         (TaskError (AgentTask.id task1)
                            (published_error (JsError "AI generation failed")))])%list
       /\ (database s' = database (submitted stubborn)
           \/ result_stored task1 (database (submitted stubborn)) (database s'))
       /\ forall k row, Db.tasks (database s') !! k = Some row ->
            Db.status row = "failed" ->
            Db.tasks (database (submitted stubborn)) !! k = Some row.
Proof.
  assert (processTask_try task1 (submitted stubborn)
          = (Throw (JsError "AI generation failed"),
             snd (processTask_try task1 (submitted stubborn)))) as Htry
    by (vm_compute; reflexivity).
  split; [vm_compute; reflexivity|]. split; [exact Htry|].
  exact (processTask_failure_outcome task1 (submitted stubborn) _ 0%nat _ eq_refl Htry).
Defined.

End runs.

(** ** What a step changes *)

Section step_effects.
Context {W : Type} `{!World W}.
Import AgentOrchestrator.

Lemma bind_inv {S A B} (c : M S A) (k : A -> M S B) (s s' : S) (r : outcome B) :
  bind c k s = (r, s') ->
  (exists e, c s = (Throw e, s') /\ r = Throw e)
  \/ exists a s1, c s = (Ok a, s1) /\ k a s1 = (r, s').
Proof.
  unfold bind. destruct (c s) as [[a|e] s1]; intros H.
  - right. now exists a, s1.
  - left. injection H as <- <-. now exists e.
Qed.

Lemma try_catch_inv {S A} (c : M S A) (h : exn -> M S A) (s s' : S) (r : outcome A) :
  try_catch c h s = (r, s') ->
  (exists a, c s = (Ok a, s') /\ r = Ok a)
  \/ exists e s1, c s = (Throw e, s1) /\ h e s1 = (r, s').
Proof.
  unfold try_catch. destruct (c s) as [[a|e] s1]; intros H.
  - left. injection H as <- <-. now exists a.
  - right. now exists e, s1.
Qed.

Lemma in_world_total {A} (f : W -> A * W) (s : System W) :
  in_world (total f) s = (Ok (fst (f (world s))), set_world (snd (f (world s))) s).
Proof. unfold in_world, total. now destruct (f (world s)). Qed.

Lemma addTask_effect (task : AgentTask.t) (s s' : System W) (r : outcome unit) :
  TaskQueue.addTask task s = (r, s') ->
  agents s' = agents s /\ database s' = database s /\ io s' = io s
  /\ (((exists e, r = Throw e) /\ taskQueue s' = taskQueue s)
      \/ (r = Ok tt /\ taskQueue s' = (taskQueue s ++ [task])%list)).
Proof.
  unfold TaskQueue.addTask, reach, bind, in_world, total, modify, throw, ret.
  destruct (store_fault Redis (world s)) as [[fault|] w1]; simpl;
    intros [= <- <-]; simpl; repeat split; eauto.
Qed.

Lemma getNextTask_effect (s s' : System W) (r : outcome (option AgentTask.t)) :
  TaskQueue.getNextTask s = (r, s') ->
  agents s' = agents s /\ database s' = database s /\ io s' = io s
  /\ match r with
     | Ok (Some task) => taskQueue s = task :: taskQueue s'
     | _ => taskQueue s' = taskQueue s
     end.
Proof.
  unfold TaskQueue.getNextTask, reach, bind, in_world, total, modify, throw, ret, gets.
  destruct (store_fault Redis (world s)) as [[fault|] w1]; simpl.
  - intros [= <- <-]. simpl. auto.
  - destruct (taskQueue s) as [|task rest] eqn:Hq; intros [= <- <-]; simpl; auto.
Qed.

(** The start of an attempt leaves the queue as it is; it leaves the agents
    as they are, or it makes one of them hold the task. *)
Lemma beginTask_effect (task : AgentTask.t) (s s' : System W) (r : outcome unit) :
  beginTask task s = (r, s') ->
  taskQueue s' = taskQueue s
  /\ (agents s' = agents s
      \/ exists i F, agents s' = alter F i (agents s)
           /\ forall a, Agent.currentTask (F a) = Some (AgentTask.id task)).
Proof.
  intros H. split.
  { assert (preserves (keeps taskQueue) (beginTask task)) as Hk
      by (unfold_orchestrator; preserve).
    exact (Hk _ _ _ H). }
  unfold beginTask in H. apply try_catch_inv in H as [(u & H & _) | (e & s1 & H & Hc)].
  - apply bind_Ok in H as (x & s1 & Hg & Hm).
    unfold modify in Hm. injection Hm as Hm. subst s'. cbn [agents set_attempts].
    destruct (selectFrom (agents s) task) as [i|] eqn:Hsel.
    + right. destruct (gather_some _ _ _ _ _ Hsel Hg) as [(F & HF & HFa) _].
      exists i, F. split; [exact HF | intros a; apply HFa].
    + rewrite gather_none in Hg by exact Hsel. discriminate Hg.
  - apply catch_keeps_agents in Hc. unfold keeps in Hc. rewrite Hc.
    apply bind_Throw in H as [Hg | (x & s2 & _ & Hm)]; [|discriminate Hm].
    destruct (selectFrom (agents s) task) as [i|] eqn:Hsel.
    + right. destruct (gather_some _ _ _ _ _ Hsel Hg) as [(F & HF & HFa) _].
      exists i, F. split; [exact HF | intros a; apply HFa].
    + rewrite gather_none in Hg by exact Hsel. injection Hg as _ <-. now left.
Qed.

Lemma tick_begin_effect (s s' : System W) (r : outcome unit) :
  tick_begin s = (r, s') ->
  (agents s' = agents s /\ taskQueue s' = taskQueue s)
  \/ exists task, taskQueue s = task :: taskQueue s'
       /\ (agents s' = agents s
           \/ exists i F, agents s' = alter F i (agents s)
                /\ forall a, Agent.currentTask (F a) = Some (AgentTask.id task)).
Proof.
  unfold tick_begin. intros H.
  assert (exists r0, bind TaskQueue.getNextTask
                       (fun task => match task with
                                    | Some task => beginTask task
                                    | None => ret tt
                                    end) s = (r0, s')) as [r0 H0].
  { apply try_catch_inv in H as [(u & H & _) | (e & s1 & H & Hc)]; [eauto|].
    unfold ret in Hc. injection Hc as _ <-. eauto. }
  clear H. apply bind_inv in H0 as [(e & Hq & _) | (next & s1 & Hq & Hb)].
  - apply getNextTask_effect in Hq as (Ha & _ & _ & Hqueue). left. now split.
  - apply getNextTask_effect in Hq as (Ha & _ & _ & Hqueue).
    destruct next as [task|].
    + right. exists task. apply beginTask_effect in Hb as [Hq' Hagents].
      rewrite Hq'. split; [exact Hqueue|]. now rewrite <- Ha.
    + unfold ret in Hb. injection Hb as _ <-. left. now split.
Qed.

(** The end of an attempt leaves the queue as it is; it leaves the agents as
    they are, or it releases one of them. *)
Lemma finishTask_effect (k : nat) (s s' : System W) (r : outcome unit) :
  finishTask k s = (r, s') ->
  taskQueue s' = taskQueue s
  /\ (agents s' = agents s
      \/ exists i, agents s'
           = alter (fun a => Agent.set_currentTask None (Agent.set_status idle a)) i
                   (agents s)).
Proof.
  intros H. split.
  { assert (preserves (keeps taskQueue) (finishTask k)) as Hk
      by (unfold_orchestrator; preserve).
    exact (Hk _ _ _ H). }
  unfold finishTask in H.
  rewrite (bind_run (gets (fun s => attempts s !! k)) _ s s _ eq_refl) in H.
  destruct (attempts s !! k) as [a|].
  - rewrite (bind_run (modify (set_attempts (delete k))) _ s _ tt eq_refl) in H.
    apply try_catch_inv in H as [(u & H & _) | (e & s1 & H & Hc)].
    + apply finish_Ok in H as (Ha & _). right. now exists (att_agent a).
    + apply finish_Throw in H as (Ha & _).
      apply catch_keeps_agents in Hc. unfold keeps in Hc. left. now rewrite Hc.
  - unfold ret in H. injection H as _ <-. now left.
Qed.

(** The end of an exploration leaves the queue as it is and changes at most
    one agent, which goes on holding what it held and is not made busy. *)
Lemma resume_effect (k : nat) (s s' : System W) (r : outcome unit) :
  resumeCuriousExploration k s = (r, s') ->
  taskQueue s' = taskQueue s
  /\ exists i F, agents s' = alter F i (agents s) /\ forall a, keeps_task a (F a).
Proof.
  intros H. split.
  { assert (preserves (keeps taskQueue) (resumeCuriousExploration k)) as Hk
      by (unfold_orchestrator; preserve).
    exact (Hk _ _ _ H). }
  unfold resumeCuriousExploration in H.
  rewrite (bind_run (gets (fun s => explorations s !! k)) _ s s _ eq_refl) in H.
  destruct (explorations s !! k) as [e|].
  - exists (explorer e).
    match type of H with
    | ?c _ = _ =>
        assert (preserves (agent_step (explorer e) keeps_task) c) as Hk
          by (unfold_orchestrator; preserve_with ltac:(task_leaf))
    end.
    exact (Hk _ _ _ H).
  - unfold ret in H. injection H as _ <-. exists 0%nat, (fun a => a).
    split; [|reflexivity]. symmetry. now apply list_alter_id.
Qed.

End step_effects.

(** ** Submission (C8, C10) *)

Section submission.
Context {W : Type} `{!World W}.
Import AgentOrchestrator.

(** The three ways in which a submission can end: the queue refuses the
    task; the queue takes it and the INSERT fails; both succeed. *)
Lemma submitTask_effect (userId prompt : string) (context : json) (s s' : System W)
    (r : outcome string) :
  submitTask userId prompt context s = (r, s') ->
  exists task,
    AgentTask.userId task = userId /\ AgentTask.prompt task = prompt
    /\ AgentTask.context task = context
    /\ AgentTask.priority task = 1 /\ AgentTask.status task = pending
    /\ agents s' = agents s /\ io s' = io s
    /\ (((exists e, r = Throw e)
         /\ taskQueue s' = taskQueue s /\ database s' = database s)
        \/ ((exists e, r = Throw e)
            /\ taskQueue s' = (taskQueue s ++ [task])%list /\ database s' = database s)
        \/ (r = Ok (AgentTask.id task)
            /\ taskQueue s' = (taskQueue s ++ [task])%list
            /\ exists now res,
                 Db.execute now Db.insert_task_sql (inserted task) (database s)
                 = (Ok res, database s'))).
Proof.
  unfold submitTask. intros H.
  rewrite (bind_run _ _ _ _ _ (in_world_total Date_now _)) in H.
  rewrite (bind_run _ _ _ _ _ (in_world_total Math_random _)) in H.
  rewrite (bind_run _ _ _ _ _ (in_world_total Date_now _)) in H.
  rewrite (bind_run _ _ _ _ _ (in_world_total Date_now _)) in H.
  match type of H with
  | bind (TaskQueue.addTask ?t) _ ?st = _ => set (task := t) in *; set (s4 := st) in *
  end.
  exists task. repeat (split; [reflexivity|]).
  assert (agents s4 = agents s /\ io s4 = io s /\ taskQueue s4 = taskQueue s
          /\ database s4 = database s) as (Ha4 & Hio4 & Hq4 & Hd4) by (repeat split).
  clearbody s4 task.
  apply bind_inv in H as [(e & Hadd & ->) | ([] & s5 & Hadd & H)].
  - apply addTask_effect in Hadd as (Ha & Hd & Hio & [[_ Hq] | [Hbad _]]);
      [|discriminate Hbad].
    repeat split; [congruence | congruence |].
    left. repeat split; [eauto | congruence | congruence].
  - apply addTask_effect in Hadd as (Ha & Hd & Hio & [[[e Hbad] _] | [_ Hq]]);
      [discriminate Hbad|].
    assert (preserves (keeps (fun s => (agents s, io s, taskQueue s)))
              (DatabaseManager.query Db.insert_task_sql (inserted task))) as Hk
      by (unfold_orchestrator; preserve).
    apply bind_inv in H as [(e & Hins & ->) | (res & s6 & Hins & Hret)].
    + pose proof (Hk _ _ _ Hins) as Hkeep. injection Hkeep as Ha' Hio' Hq'.
      repeat split; [congruence | congruence |].
      right. left. repeat split; [eauto | congruence |].
      apply query_database in Hins as [[Hsame _] | [now Hexec]]; [congruence|].
      apply execute_Throw in Hexec. congruence.
    + unfold ret in Hret. injection Hret as <- <-.
      pose proof (Hk _ _ _ Hins) as Hkeep. injection Hkeep as Ha' Hio' Hq'.
      repeat split; [congruence | congruence |].
      right. right. repeat split; [congruence|].
      apply query_database in Hins as [[_ [e He]] | [now Hexec]]; [discriminate He|].
      exists now, res. now rewrite <- Hd4, <- Hd.
Qed.


(** C10: whatever the arguments of [submitTask], a task that it adds to the
    queue has priority 1; the INSERT statement names no priority column and
    none of its seven parameters is a number, so the priority of the row
    that is persisted is the default of the schema and not a value taken
    from the task. *)
Theorem submitTask_priority (userId prompt : string) (context : json) (s s' : System W)
    (r : outcome string) :
  submitTask userId prompt context s = (r, s') ->
  (forall task, In task (taskQueue s') ->
                In task (taskQueue s) \/ AgentTask.priority task = 1)
  /\ JS.includes Db.insert_task_sql "priority" = false
  /\ forall taskId, r = Ok taskId ->
       exists now params res,
         Db.execute now Db.insert_task_sql params (database s) = (Ok res, database s')
         /\ length params = 7%nat
         /\ Forall (fun v => forall z, v <> Db.VInt z) params
         /\ exists row, Db.tasks (database s') !! taskId = Some row
                        /\ Db.priority row = Db.default_priority.
Proof.
  intros H.
  apply submitTask_effect in H
    as (task & _ & _ & _ & Hprio & _ & _ & _ & Hcase).
  split; [|split; [reflexivity|]].
  - intros t Hin.
    destruct Hcase as [(_ & Hq & _) | [(_ & Hq & _) | (_ & Hq & _)]];
      rewrite Hq in Hin; [now left | |];
      (apply in_app_or in Hin as [Hin | [<- | []]]; [now left | now right]).
  - intros taskId ->.
    destruct Hcase as [([e He] & _) | [([e He] & _) | ([= ->] & _ & now & res & Hexec)]];
      [discriminate He | discriminate He |].
    exists now, (inserted task), res. split; [exact Hexec|].
    split; [reflexivity|]. split.
    + unfold inserted. repeat constructor; discriminate.
    + unfold inserted in Hexec. rewrite execute_insert in Hexec.
      destruct (bool_decide _); [|discriminate Hexec].
      destruct (Db.tasks (database s) !! AgentTask.id task); [discriminate Hexec|].
      injection Hexec as _ <-. cbn [Db.tasks]. rewrite lookup_insert_eq.
      eexists. split; reflexivity.
Qed.

End submission.

(** ** The pool invariant (C4) *)

Section pool_invariant.
Context {W : Type} `{!World W}.
Import AgentOrchestrator.

Lemma lookup_alter_inv (F : Agent.t -> Agent.t) (i j : nat) (pool : list Agent.t)
    (a' : Agent.t) :
  alter F i pool !! j = Some a' ->
  exists a, pool !! j = Some a /\ ((j = i /\ a' = F a) \/ (j <> i /\ a' = a)).
Proof.
  rewrite list_lookup_alter. destruct (decide (i = j)) as [<- | Hne].
  - destruct (pool !! i) as [a|]; simpl; [|discriminate].
    intros [= <-]. exists a. split; [reflexivity | left; now split].
  - intros Hj. exists a'. split; [exact Hj | right; split; [congruence | reflexivity]].
Qed.

(** An agent whose task stays the same and that is not made busy. *)
Lemma consistent_keep (pool : list Agent.t) (queued : list string)
    (F : Agent.t -> Agent.t) (i : nat) :
  consistent pool queued ->
  (forall a, Agent.currentTask (F a) = Agent.currentTask a
             /\ (Agent.status (F a) = busy -> Agent.status a = busy)) ->
  consistent (alter F i pool) queued.
Proof.
  intros (Hbusy & Huniq & Hheld & Hq) HF. repeat split; [| | |exact Hq].
  - intros j a' Hj Hst.
    apply lookup_alter_inv in Hj as (a & Ha & [[-> ->] | [_ ->]]).
    + destruct (HF a) as [-> Hb]. eauto.
    + eauto.
  - intros j1 j2 a1' a2' t H1 H2 Ht1 Ht2.
    apply lookup_alter_inv in H1 as (a1 & Ha1 & Hc1).
    apply lookup_alter_inv in H2 as (a2 & Ha2 & Hc2).
    apply (Huniq j1 j2 a1 a2 t Ha1 Ha2).
    + destruct Hc1 as [[_ ->] | [_ ->]]; [|exact Ht1].
      destruct (HF a1) as [Heq _]. now rewrite <- Heq.
    + destruct Hc2 as [[_ ->] | [_ ->]]; [|exact Ht2].
      destruct (HF a2) as [Heq _]. now rewrite <- Heq.
  - intros j a' t Hj Ht.
    apply lookup_alter_inv in Hj as (a & Ha & Hc).
    apply (Hheld j a t Ha).
    destruct Hc as [[_ ->] | [_ ->]]; [|exact Ht].
    destruct (HF a) as [Heq _]. now rewrite <- Heq.
Qed.

(** An agent that is released. *)
Lemma consistent_release (pool : list Agent.t) (queued : list string)
    (F : Agent.t -> Agent.t) (i : nat) :
  consistent pool queued ->
  (forall a, Agent.currentTask (F a) = None /\ Agent.status (F a) <> busy) ->
  consistent (alter F i pool) queued.
Proof.
  intros (Hbusy & Huniq & Hheld & Hq) HF. repeat split; [| | |exact Hq].
  - intros j a' Hj Hst.
    apply lookup_alter_inv in Hj as (a & Ha & [[-> ->] | [_ ->]]).
    + destruct (HF a) as [_ Hnb]. contradiction.
    + eauto.
  - intros j1 j2 a1' a2' t H1 H2 Ht1 Ht2.
    apply lookup_alter_inv in H1 as (a1 & Ha1 & [[-> ->] | [Hn1 ->]]).
    { destruct (HF a1) as [Hnone _]. congruence. }
    apply lookup_alter_inv in H2 as (a2 & Ha2 & [[-> ->] | [Hn2 ->]]).
    { destruct (HF a2) as [Hnone _]. congruence. }
    eauto.
  - intros j a' t Hj Ht.
    apply lookup_alter_inv in Hj as (a & Ha & [[-> ->] | [_ ->]]).
    + destruct (HF a) as [Hnone _]. congruence.
    + eauto.
Qed.

(** The task at the head of the queue is given to an agent. *)
Lemma consistent_assign (pool : list Agent.t) (t : string) (queued : list string)
    (F : Agent.t -> Agent.t) (i : nat) :
  consistent pool (t :: queued) ->
  (forall a, Agent.currentTask (F a) = Some t) ->
  consistent (alter F i pool) queued.
Proof.
  intros (Hbusy & Huniq & Hheld & Hq) HF.
  apply NoDup_cons in Hq as [Hnotin Hq].
  assert (forall j a, pool !! j = Some a -> Agent.currentTask a <> Some t) as Hnobody.
  { intros j a Ha Ht. apply (Hheld j a t Ha Ht). now left. }
  repeat split; [| | |exact Hq].
  - intros j a' Hj Hst.
    apply lookup_alter_inv in Hj as (a & Ha & [[-> ->] | [_ ->]]).
    + rewrite HF. eauto.
    + eauto.
  - intros j1 j2 a1' a2' t' H1 H2 Ht1 Ht2.
    apply lookup_alter_inv in H1 as (a1 & Ha1 & [[-> ->] | [Hn1 ->]]);
      apply lookup_alter_inv in H2 as (a2 & Ha2 & [[-> ->] | [Hn2 ->]]).
    + reflexivity.
    + rewrite HF in Ht1. injection Ht1 as <-. exfalso. exact (Hnobody _ _ Ha2 Ht2).
    + rewrite HF in Ht2. injection Ht2 as <-. exfalso. exact (Hnobody _ _ Ha1 Ht1).
    + eauto.
  - intros j a' t' Hj Ht Hin.
    apply lookup_alter_inv in Hj as (a & Ha & [[-> ->] | [_ ->]]).
    + rewrite HF in Ht. injection Ht as <-. apply Hnotin. now apply list_elem_of_In.
    + apply (Hheld j a t' Ha Ht). now right.
Qed.

(** The task at the head of the queue is dropped. *)
Lemma consistent_drop (pool : list Agent.t) (t : string) (queued : list string) :
  consistent pool (t :: queued) -> consistent pool queued.
Proof.
  intros (Hbusy & Huniq & Hheld & Hq). repeat split; try assumption.
  - intros j a t' Ha Ht Hin. apply (Hheld j a t' Ha Ht). now right.
  - now apply NoDup_cons in Hq as [_ Hq].
Qed.

(** A fresh task joins the queue. *)
Lemma consistent_enqueue (pool : list Agent.t) (t : string) (queued : list string) :
  consistent pool queued ->
  (forall i a, pool !! i = Some a -> Agent.currentTask a <> Some t) ->
  ~ In t queued ->
  consistent pool (queued ++ [t]).
Proof.
  intros (Hbusy & Huniq & Hheld & Hq) Hnobody Hnotin. repeat split; try assumption.
  - intros j a t' Ha Ht Hin. apply in_app_or in Hin as [Hin | [<- | []]].
    + exact (Hheld j a t' Ha Ht Hin).
    + exact (Hnobody j a Ha Ht).
  - apply NoDup_app. repeat split; [exact Hq | | apply NoDup_singleton].
    intros x Hx Hx'. apply list_elem_of_In in Hx. apply list_elem_of_In in Hx'.
    destruct Hx' as [<- | []]. contradiction.
Qed.

Lemma start_agents (i : nat) (a : Agent.t) :
  initializeAgents [] !! i = Some a ->
  Agent.status a = idle /\ Agent.currentTask a = None.
Proof.
  destruct i as [|[|[|[|i]]]]; simpl; intros [= <-]; split; reflexivity.
Qed.

Lemma start_consistent (d : Db.t) (w : W) :
  consistent (agents (start d w)) (map AgentTask.id (taskQueue (start d w))).
Proof.
  unfold start. cbn [agents taskQueue map]. repeat split.
  - intros i a Hi Hst. apply start_agents in Hi as [Hidle _]. congruence.
  - intros i j a b t Hi _ Ht. apply start_agents in Hi as [_ Hnone]. congruence.
  - intros i a t _ _ [].
  - constructor.
Qed.

Lemma step_consistent (s s' : System W) :
  step s s' ->
  consistent (agents s) (map AgentTask.id (taskQueue s)) ->
  consistent (agents s') (map AgentTask.id (taskQueue s')).
Proof.
  intros Hstep Hc. destruct Hstep as [u p c s r s' Hrun Hfresh | s r s' Hrun
                                     | k s r s' Hrun | k s r s' Hrun].
  - apply submitTask_effect in Hrun
      as (task & _ & _ & _ & _ & _ & Ha & _ & Hcase).
    rewrite Ha.
    assert (taskQueue s' = taskQueue s
            \/ taskQueue s' = (taskQueue s ++ [task])%list) as [Hq | Hq]
      by (destruct Hcase as [(_ & Hq & _) | [(_ & Hq & _) | (_ & Hq & _)]]; auto).
    + now rewrite Hq.
    + rewrite Hq, map_app. simpl. destruct (Hfresh task Hq) as [Hnobody Hnew].
      apply consistent_enqueue; [exact Hc | exact Hnobody |].
      intros Hin. apply in_map_iff in Hin as (t & Hid & Hin). now apply (Hnew t).
  - apply tick_begin_effect in Hrun as [[Ha Hq] | (task & Hq & Hagents)].
    + now rewrite Ha, Hq.
    + rewrite Hq in Hc. simpl in Hc. destruct Hagents as [Ha | (i & F & Ha & HF)].
      * rewrite Ha. now apply consistent_drop in Hc.
      * rewrite Ha. now apply consistent_assign with (t := AgentTask.id task).
  - apply finishTask_effect in Hrun as [Hq [Ha | [i Ha]]]; rewrite Hq, Ha.
    + exact Hc.
    + apply consistent_release; [exact Hc|]. intros a. split; [reflexivity | discriminate].
  - apply resume_effect in Hrun as [Hq (i & F & Ha & HF)]. rewrite Hq, Ha.
    apply consistent_keep; [exact Hc | exact HF].
Qed.

Lemma reachable_consistent (s : System W) :
  reachable s -> consistent (agents s) (map AgentTask.id (taskQueue s)).
Proof.
  intros (d & w & Hrun).
  apply (rtc_ind_r (R := step)
           (fun s => consistent (agents s) (map AgentTask.id (taskQueue s)))
           (start d w)); [apply start_consistent | | exact Hrun].
  intros s1 s2 _ Hstep IH. eapply step_consistent; eassumption.
Qed.

(** C4, as the code has it: in every reachable state a busy agent holds a
    task, and no two agents hold the same task. *)
Theorem pool_invariant (s : System W) :
  reachable s ->
  (forall i a, agents s !! i = Some a -> Agent.status a = busy ->
               is_Some (Agent.currentTask a))
  /\ (forall i j a b t, agents s !! i = Some a -> agents s !! j = Some b ->
        Agent.currentTask a = Some t -> Agent.currentTask b = Some t -> i = j).
Proof.
  intros Hreach. destruct (reachable_consistent s Hreach) as (Hbusy & Huniq & _).
  split; assumption.
Qed.

End pool_invariant.

(** ** An attempt in one piece and in two *)

Section two_parts.
Context {W : Type} `{!World W}.
Import AgentOrchestrator.

Lemma suspend_resume_state (s : System W) (a : Attempt) :
  set_attempts (delete (length (attempts s)))
    (set_attempts (fun l => l ++ [a])%list s) = s.
Proof.
  destruct s as [ag ex att q d log w]. unfold set_attempts. simpl. f_equal.
  rewrite (delete_middle att [] a). apply app_nil_r.
Qed.

(** Starting an attempt and finishing it at once is [processTask]. *)
Lemma processTask_two_parts (task : AgentTask.t) (s : System W) :
  (beginTask task ;; finishTask (length (attempts s))) s = processTask task s.
Proof.
  destruct (processTask_gather task s) as [[x|e] sg] eqn:Hg;
    pose proof (gather_keeps_attempts _ _ _ _ Hg) as Hatt; unfold keeps in Hatt;
    rewrite <- Hatt.
  - assert (beginTask task s
            = (Ok tt, set_attempts
                        (fun l => l ++ [mkAttempt task (fst (fst x)) (snd (fst x)) (snd x)])%list
                        sg)) as Hb.
    { unfold beginTask, try_catch. now rewrite (bind_run _ _ _ _ _ Hg). }
    rewrite (bind_run _ _ _ _ _ Hb). unfold finishTask.
    rewrite (bind_run (gets _) _ _ _ _ eq_refl). cbn [attempts set_attempts].
    rewrite (list_lookup_middle (attempts sg) [] _ (length (attempts sg)) eq_refl).
    rewrite (bind_run (modify _) _ _ _ _ eq_refl), suspend_resume_state.
    unfold processTask, processTask_try, try_catch.
    now rewrite (bind_run _ _ _ _ _ Hg).
  - assert (beginTask task s = processTask_catch task e sg) as Hb.
    { unfold beginTask, try_catch. now rewrite (bind_run_Throw _ _ _ _ _ Hg). }
    assert (processTask task s = processTask_catch task e sg) as ->.
    { unfold processTask, processTask_try, try_catch.
      now rewrite (bind_run_Throw _ _ _ _ _ Hg). }
    unfold bind at 1. rewrite Hb. unfold processTask_catch, emit, modify.
    unfold finishTask, bind, gets. cbn [attempts set_io].
    rewrite lookup_ge_None_2 by lia. reflexivity.
Qed.

Lemma beginTask_returns (task : AgentTask.t) (s : System W) :
  exists s', beginTask task s = (Ok tt, s').
Proof.
  unfold beginTask, try_catch.
  destruct (bind (processTask_gather task) _ s) as [[[]|e] s1]; [eauto|].
  unfold processTask_catch, emit, modify. eauto.
Qed.

Lemma processTask_returns (task : AgentTask.t) (s : System W) :
  exists s', processTask task s = (Ok tt, s').
Proof.
  unfold processTask, try_catch.
  destruct (processTask_try task s) as [[[]|e] s1]; [eauto|].
  unfold processTask_catch, emit, modify. eauto.
Qed.

(** A firing of the timer whose attempt is finished at once is [tick]. *)
Lemma tick_two_parts (s : System W) :
  (tick_begin ;; finishTask (length (attempts s))) s = tick s.
Proof.
  assert (preserves (keeps attempts) (TaskQueue.getNextTask (W := W))) as Hk
    by (unfold_orchestrator; preserve).
  destruct (TaskQueue.getNextTask s) as [[[task|]|e] sq] eqn:Hq;
    pose proof (Hk _ _ _ Hq) as Hatt; unfold keeps in Hatt; rewrite <- Hatt.
  - destruct (processTask_returns task sq) as [s' Hp].
    destruct (beginTask_returns task sq) as [sb Hb].
    assert (tick s = (Ok tt, s')) as ->.
    { unfold tick, try_catch. now rewrite (bind_run _ _ _ _ _ Hq), Hp. }
    assert (tick_begin s = (Ok tt, sb)) as Htb.
    { unfold tick_begin, try_catch. now rewrite (bind_run _ _ _ _ _ Hq), Hb. }
    rewrite (bind_run _ _ _ _ _ Htb), <- Hp, <- processTask_two_parts.
    now rewrite (bind_run _ _ _ _ _ Hb).
  - assert (tick s = (Ok tt, sq)) as ->.
    { unfold tick, try_catch. now rewrite (bind_run _ _ _ _ _ Hq). }
    assert (tick_begin s = (Ok tt, sq)) as Htb.
    { unfold tick_begin, try_catch. now rewrite (bind_run _ _ _ _ _ Hq). }
    rewrite (bind_run _ _ _ _ _ Htb). unfold finishTask, bind, gets.
    rewrite lookup_ge_None_2 by lia. reflexivity.
  - assert (tick s = (Ok tt, sq)) as ->.
    { unfold tick, try_catch. now rewrite (bind_run_Throw _ _ _ _ _ Hq). }
    assert (tick_begin s = (Ok tt, sq)) as Htb.
    { unfold tick_begin, try_catch. now rewrite (bind_run_Throw _ _ _ _ _ Hq). }
    rewrite (bind_run _ _ _ _ _ Htb). unfold finishTask, bind, gets.
    rewrite lookup_ge_None_2 by lia. reflexivity.
Qed.

(** So the states that [tick] leads to are reachable. *)
Lemma tick_reachable (s : System W) : reachable s -> reachable (snd (tick s)).
Proof.
  intros (d & w & Hrun). exists d, w.
  rewrite <- tick_two_parts. unfold bind.
  destruct (tick_begin s) as [[u|e] s1] eqn:Hb.
  - eapply rtc_r; [eapply rtc_r; [exact Hrun|]|].
    + eapply step_tick. exact Hb.
    + eapply step_finish. apply surjective_pairing.
  - eapply rtc_r; [exact Hrun|]. eapply step_tick. exact Hb.
Qed.

End two_parts.

(** ** Concrete runs of the process *)

Section process_runs.
Import AgentOrchestrator Scenario.

Lemma explored_reachable : reachable explored.
Proof.
  exists db0, curious. change (start db0 curious) with fresh_start.
  eapply rtc_l; [|eapply rtc_l; [|eapply rtc_l; [|apply rtc_refl]]].
  - apply (step_submit alice "research entanglement" JNull fresh_start
             (fst (submitTask alice "research entanglement" JNull fresh_start)) accepted).
    + unfold accepted. apply surjective_pairing.
    + intros task _. split.
      * intros i a Hi. apply start_agents in Hi as [_ ->]. discriminate.
      * intros t [].
  - apply (step_tick accepted (fst (tick_begin accepted)) started).
    unfold started. apply surjective_pairing.
  - apply (step_explore 0 started (fst (resumeCuriousExploration 0 started)) explored).
    unfold explored. apply surjective_pairing.
Qed.

(** [currentTask] is not set only while the status is [busy], against the
    specification: in a reachable state, while the attempt waits for the
    task processor, Aria holds the task with status [learning], and with
    status [idle] once the exploration has ended. *)
Lemma idle_agent_holds_task :
  reachable explored
  /\ (fun a => (Agent.status a, Agent.currentTask a)) <$> agents started !! 0%nat
     = Some (learning, Some "task-1700000000000-4fzyo82mv")
  /\ (fun a => (Agent.status a, Agent.currentTask a)) <$> agents explored !! 0%nat
     = Some (idle, Some "task-1700000000000-4fzyo82mv")
  /\ length (attempts explored) = 1%nat.
Proof.
  split; [exact explored_reachable|]. vm_compute. repeat split; reflexivity.
Qed.

Lemma pool_invariant_witness :
  reachable explored
  /\ ((forall i a, agents explored !! i = Some a -> Agent.status a = busy ->
                   is_Some (Agent.currentTask a))
      /\ (forall i j a b t, agents explored !! i = Some a -> agents explored !! j = Some b ->
            Agent.currentTask a = Some t -> Agent.currentTask b = Some t -> i = j)).
Proof.
  split; [exact explored_reachable|].
  exact (pool_invariant explored explored_reachable).
Defined.


(** The same happens to a known user while the database is out of reach. *)
Example submission_during_outage :
  let down := mkScript 1700000000000 0.99 concepts_reply None None false false true in
  fst (submitTask alice "hello" JNull (start db0 down))
  = Throw (JsError "Connection terminated")
  /\ length (taskQueue (snd (submitTask alice "hello" JNull (start db0 down)))) = 1%nat.
Proof. vm_compute. split; reflexivity. Qed.


Lemma submitTask_priority_witness :
  submitTask alice "research entanglement" JNull fresh_start
  = (Ok "task-1700000000000-4fzyo82mv", accepted)
  /\ ((forall task, In task (taskQueue accepted) ->
                    In task (taskQueue fresh_start) \/ AgentTask.priority task = 1)
      /\ JS.includes Db.insert_task_sql "priority" = false
      /\ forall taskId, Ok "task-1700000000000-4fzyo82mv" = Ok taskId ->
           exists now params res,
             Db.execute now Db.insert_task_sql params (database fresh_start)
             = (Ok res, database accepted)
             /\ length params = 7%nat
             /\ Forall (fun v => forall z, v <> Db.VInt z) params
             /\ exists row, Db.tasks (database accepted) !! taskId = Some row
                            /\ Db.priority row = Db.default_priority).
Proof.
  assert (submitTask alice "research entanglement" JNull fresh_start
          = (Ok "task-1700000000000-4fzyo82mv", accepted)) as Hrun
    by (vm_compute; reflexivity).
  split; [exact Hrun|].
  exact (submitTask_priority alice "research entanglement" JNull fresh_start accepted _ Hrun).
Defined.


(** Three sources give 0.95, two give 0.8. *)
Example confidence_with_encyclopedia :
  KnowledgeItem.confidence
    <$> match fst (KnowledgeSeeker.seekKnowledge ["quantum"] informed) with
        | Ok items => items
        | Throw _ => []
        end
  = [0.95%Q].
Proof. vm_compute. reflexivity. Qed.

(** A batch in which the second query fails: the first and the third are
    answered. *)
Example batch_with_a_failing_query :
  KnowledgeItem.query
    <$> match fst (KnowledgeSeeker.seekKnowledge ["alpha"; "forbidden topic"; "beta"] picky)
        with
        | Ok items => items
        | Throw _ => []
        end
  = ["alpha"; "beta"].
Proof. vm_compute. reflexivity. Qed.

End process_runs.

(** * Further properties *)

(** ** Scores and selection *)

Section scores_further.
Import AgentOrchestrator.

Lemma split_trailing_space (a : string) :
  exists pieces, pieces <> [] /\ JS.split " " (a ++ " ") = (pieces ++ [""])%list.
Proof.
  induction a as [|c a IH].
  - exists [""]. split; [discriminate | reflexivity].
  - destruct IH as (pieces & Hne & IH). rewrite string_app_cons. simpl. rewrite IH.
    destruct (Ascii.eqb c " ").
    + exists ("" :: pieces). split; [discriminate | reflexivity].
    + destruct pieces as [|p pieces]; [congruence|].
      exists (String c p :: pieces). split; [discriminate | reflexivity].
Qed.

Lemma empty_piece_counts_all (pieces tags : list string) :
  In "" pieces ->
  List.filter (fun tag => existsb (fun keyword => JS.includes tag keyword) pieces) tags
  = tags.
Proof.
  intros Hin. induction tags as [|tag tags IH]; [reflexivity|]. simpl.
  replace (existsb (fun keyword => JS.includes tag keyword) pieces) with true.
  - now rewrite IH.
  - symmetry. apply existsb_exists. exists "". split; [exact Hin | apply includes_empty].
Qed.

(** X1: on a prompt that consists of non-empty words without whitespace
    in them, separated by single spaces, the score that [calculateAgentScore]
    computes is the documented one: 0.3 times the curiosity level plus 0.2
    times the learning rate plus 0.5 for every specialization tag that
    includes a lowercased word of the prompt. *)
Theorem score_agrees_on_plain_prompts (agent : Agent.t) (task : AgentTask.t)
    (words : list string) :
  AgentTask.prompt task = JS.join " " words ->
  words <> [] ->
  Forall (fun w => plain_word w = true /\ w <> "") words ->
  calculateAgentScore agent task == Spec.score agent task.
Proof. apply score_of_plain_prompt. Qed.

(** X2: the score of an agent lies between its base score and the base
    score plus one half for each of its specialization tags, whatever the
    prompt is. *)
Theorem calculateAgentScore_bounds (agent : Agent.t) (task : AgentTask.t) :
  (base_score agent <= calculateAgentScore agent task)%Q
  /\ (calculateAgentScore agent task
      <= base_score agent
         + 0.5 * inject_Z (Z.of_nat (length (Agent.specialization agent))))%Q.
Proof.
  unfold calculateAgentScore, base_score. rewrite score_fold.
  set (matched := List.filter _ _).
  assert (length matched <= length (Agent.specialization agent))%nat as Hle
    by apply List.filter_length_le.
  assert (0 <= inject_Z (Z.of_nat (length matched)))%Q as H0.
  { change 0%Q with (inject_Z 0). rewrite <- Zle_Qle. lia. }
  assert (inject_Z (Z.of_nat (length matched))
          <= inject_Z (Z.of_nat (length (Agent.specialization agent))))%Q as H1.
  { rewrite <- Zle_Qle. lia. }
  split; lra.
Qed.

(** X3: when the prompt is empty, or begins or ends with a space, every
    specialization tag of every agent counts as matched, so that the score
    is the base score plus one half for each tag. *)
Theorem blank_edge_matches_every_tag (agent : Agent.t) (task : AgentTask.t) :
  AgentTask.prompt task = ""
  \/ (exists rest, AgentTask.prompt task = String " " rest)
  \/ (exists front, AgentTask.prompt task = front ++ " ") ->
  calculateAgentScore agent task
  == base_score agent + 0.5 * inject_Z (Z.of_nat (length (Agent.specialization agent))).
Proof.
  intros Hprompt. unfold calculateAgentScore, base_score. rewrite score_fold.
  rewrite empty_piece_counts_all; [lra|].
  destruct Hprompt as [-> | [[rest ->] | [front ->]]].
  - now left.
  - now left.
  - rewrite toLowerCase_app.
    destruct (split_trailing_space (JS.toLowerCase front)) as (pieces & _ & Hsplit).
    change (JS.toLowerCase " ") with " ". rewrite Hsplit.
    apply in_or_app. right. now left.
Qed.

Lemma blank_edge_matches_every_tag_witness :
  (AgentTask.prompt (AgentTask.mk "task-4" Scenario.alice "plan a trip " JNull 1 pending 0 0)
   = ""
   \/ (exists rest,
         AgentTask.prompt
           (AgentTask.mk "task-4" Scenario.alice "plan a trip " JNull 1 pending 0 0)
         = String " " rest)
   \/ (exists front,
         AgentTask.prompt
           (AgentTask.mk "task-4" Scenario.alice "plan a trip " JNull 1 pending 0 0)
         = front ++ " "))
  /\ calculateAgentScore Scenario.aria
       (AgentTask.mk "task-4" Scenario.alice "plan a trip " JNull 1 pending 0 0)
     == base_score Scenario.aria
        + 0.5 * inject_Z (Z.of_nat (length (Agent.specialization Scenario.aria))).
Proof.
  assert (AgentTask.prompt
            (AgentTask.mk "task-4" Scenario.alice "plan a trip " JNull 1 pending 0 0) = ""
          \/ (exists rest,
                AgentTask.prompt
                  (AgentTask.mk "task-4" Scenario.alice "plan a trip " JNull 1 pending 0 0)
                = String " " rest)
          \/ (exists front,
                AgentTask.prompt
                  (AgentTask.mk "task-4" Scenario.alice "plan a trip " JNull 1 pending 0 0)
                = front ++ " ")) as Hedge.
  { right. right. exists "plan a trip". reflexivity. }
  split; [exact Hedge|].
  exact (blank_edge_matches_every_tag Scenario.aria _ Hedge).
Defined.

Lemma score_agrees_on_plain_prompts_witness :
  AgentTask.prompt Scenario.task1 = JS.join " " ["research"; "entanglement"]
  /\ ["research"; "entanglement"] <> []
  /\ Forall (fun w => plain_word w = true /\ w <> "") ["research"; "entanglement"]
  /\ calculateAgentScore Scenario.aria Scenario.task1
     == Spec.score Scenario.aria Scenario.task1.
Proof.
  assert (Forall (fun w => plain_word w = true /\ w <> "") ["research"; "entanglement"])
    as Hwords by (repeat constructor; discriminate).
  assert (["research"; "entanglement"] <> []) as Hne by discriminate.
  split; [reflexivity|]. split; [exact Hne|]. split; [exact Hwords|].
  exact (score_agrees_on_plain_prompts Scenario.aria Scenario.task1
           ["research"; "entanglement"] eq_refl Hne Hwords).
Defined.

Context {W : Type} `{!World W}.

(** X4: [selectAgent] answers [null] exactly when no agent of the pool is
    idle; it never throws and leaves the state as it is, and an agent that
    it selects is in the pool and idle. *)
Theorem selectAgent_null_iff_no_idle (task : AgentTask.t) (s : System W) :
  (selectAgent task s = (Ok None, s)
   <-> forall i a, agents s !! i = Some a -> Agent.status a <> idle)
  /\ exists answer,
       selectAgent task s = (Ok answer, s)
       /\ forall i, answer = Some i ->
            exists a, agents s !! i = Some a /\ Agent.status a = idle.
Proof.
  unfold selectAgent, gets. split.
  - rewrite <- selectFrom_None. split; [intros [= ->]; reflexivity | intros ->; reflexivity].
  - exists (selectFrom (agents s) task). split; [reflexivity|].
    intros i Hsel. apply selectFrom_best in Hsel as (a & Ha & Hidle & _). eauto.
Qed.

End scores_further.

(** ** The language model's helpers *)

Section provider_further.
Context {W : Type} `{!World W}.
Import AIProvider.

(** X5: the four extraction helpers of [AIProvider] never throw, whatever
    the chat-completion API and the JSON parser do: each of them returns a
    value in every world. *)
Theorem extractors_never_throw (text : string) (result : json) (w : W) :
  (exists concepts w', extractConcepts text w = (Ok concepts, w'))
  /\ (exists interests w', extractInterests text result w = (Ok interests, w'))
  /\ (exists topics w', extractRelatedTopics text w = (Ok topics, w'))
  /\ (exists topic w', extractMainTopic text w = (Ok topic, w')).
Proof.
  repeat split.
  - apply (try_catch_returns _ (fun _ => [])).
  - apply (try_catch_returns _ (fun _ => [])).
  - apply (try_catch_returns _ (fun _ => [])).
  - apply (try_catch_returns _ (fun _ => text)).
Qed.

Lemma extract_falls_back {A} (prompt systemPrompt model : string)
    (k : string -> M W A) (fallback : A) (w : W) :
  (forall prompt systemPrompt model, exists e w',
      generateWithOpenAI prompt systemPrompt model w = (Throw e, w')) ->
  fst (try_catch (bind (generateWithOpenAI prompt systemPrompt model) k)
                 (fun _ => ret fallback) w)
  = Ok fallback.
Proof.
  intros Hdown. destruct (Hdown prompt systemPrompt model) as (e & w' & Hthrow).
  unfold try_catch. now rewrite (bind_run_Throw _ _ _ _ _ Hthrow).
Qed.

(** X6: while the chat-completion API fails, [extractConcepts],
    [extractInterests] and [extractRelatedTopics] answer the empty list and
    [extractMainTopic] answers the query it was given. *)
Theorem extractors_fall_back (text : string) (result : json) (w : W) :
  (forall prompt systemPrompt model, exists e w',
      generateWithOpenAI prompt systemPrompt model w = (Throw e, w')) ->
  fst (extractConcepts text w) = Ok []
  /\ fst (extractInterests text result w) = Ok []
  /\ fst (extractRelatedTopics text w) = Ok []
  /\ fst (extractMainTopic text w) = Ok text.
Proof.
  intros Hdown. repeat split; now apply extract_falls_back.
Qed.

End provider_further.

Section provider_runs.
Import AIProvider.

Lemma silent_refuses (prompt systemPrompt model : string) :
  exists e w', generateWithOpenAI prompt systemPrompt model Cases.silent = (Throw e, w').
Proof.
  exists (JsError "Request failed with status code 500"), Cases.silent.
  unfold generateWithOpenAI, bind. simpl. now rewrite includes_empty.
Qed.

Lemma extractors_fall_back_witness :
  (forall prompt systemPrompt model, exists e w',
      generateWithOpenAI prompt systemPrompt model Cases.silent = (Throw e, w'))
  /\ fst (extractConcepts "tides" Cases.silent) = Ok []
  /\ fst (extractInterests "tides" JNull Cases.silent) = Ok []
  /\ fst (extractRelatedTopics "tides" Cases.silent) = Ok []
  /\ fst (extractMainTopic "tides" Cases.silent) = Ok "tides".
Proof.
  split; [exact silent_refuses|].
  exact (extractors_fall_back "tides" JNull Cases.silent silent_refuses).
Defined.

End provider_runs.

(** ** The knowledge seeker, further *)

Section seeker_further.
Context {W : Type} `{!World W}.
Import KnowledgeSeeker.

Lemma searchWikipedia_at_most_one (query : string) (w w' : W)
    (r : outcome (list Source.t)) :
  searchWikipedia query w = (r, w') ->
  exists pages, r = Ok pages /\ (length pages <= 1)%nat.
Proof.
  unfold searchWikipedia, try_catch, bind, of_outcome, ret.
  destruct (encodeURIComponent query) as [encoded|e].
  - destruct (axios_get _ w) as [[response|e] w1].
    + destruct (data response) as [d|].
      * destruct (JS.truthy (extract d)); intros [= <- <-]; eexists; split;
          try reflexivity; simpl; lia.
      * intros [= <- <-]. eexists; split; [reflexivity | simpl; lia].
    + intros [= <- <-]. eexists; split; [reflexivity | simpl; lia].
  - intros [= <- <-]. eexists; split; [reflexivity | simpl; lia].
Qed.

Lemma validSources_length (sources : list (option Source.t)) :
  (length (validSources sources) <= length sources)%nat.
Proof.
  induction sources as [|[src|] sources IH]; simpl; [lia | | lia].
  destruct (JS.truthy (Source.content src)); simpl; lia.
Qed.

Lemma gatherSources_at_most_three (query : string) (w w' : W)
    (sources : list (option Source.t)) :
  gatherSources query w = (Ok sources, w') ->
  (length (validSources sources) <= 3)%nat.
Proof.
  unfold gatherSources. intros H.
  apply bind_Ok in H as (web & w1 & Hweb & H).
  apply bind_Ok in H as (wiki & w2 & Hwiki & H).
  apply bind_Ok in H as (ai & w3 & _ & H).
  unfold ret in H. injection H as <- _.
  apply searchWikipedia_at_most_one in Hwiki as (pages & [= <-] & Hone).
  unfold searchWeb, try_catch, performWebSearch, bind, ret in Hweb.
  injection Hweb as <- _.
  etransitivity; [apply validSources_length|].
  rewrite !length_app, !length_fmap. simpl. lia.
Qed.

Lemma synthesizeKnowledge_source (query : string) (sources : list (option Source.t))
    (w w' : W) (item : KnowledgeItem.t) :
  synthesizeKnowledge query sources w = (Ok item, w') ->
  KnowledgeItem.source item = "Multi-source synthesis".
Proof.
  unfold synthesizeKnowledge. intros H.
  apply bind_Ok in H as (content & w1 & _ & H).
  apply bind_Ok in H as (related & w2 & _ & H).
  apply bind_Ok in H as (topic & w3 & _ & H).
  apply bind_Ok in H as (now & w4 & _ & H).
  unfold ret in H. injection H as <- _. reflexivity.
Qed.

(** X7: every item that [seekKnowledge] returns is labelled as a
    multi-source synthesis and carries the confidence 0.6, 0.8 or 0.95: the
    placeholder web search always contributes a source, so that the
    confidence 0.1 of an item without sources is never given. *)
Theorem seekKnowledge_confidence_values (queries : list string) (w w' : W)
    (items : list KnowledgeItem.t) (item : KnowledgeItem.t) :
  seekKnowledge queries w = (Ok items, w') ->
  In item items ->
  (KnowledgeItem.confidence item = 0.6%Q
   \/ KnowledgeItem.confidence item = 0.8%Q
   \/ KnowledgeItem.confidence item = 0.95%Q)
  /\ KnowledgeItem.source item = "Multi-source synthesis".
Proof.
  unfold seekKnowledge. intros Hrun Hin.
  destruct (seekLoop_seeks queries [] w) as (items' & w'' & Hloop & Hseeks).
  rewrite Hloop in Hrun. injection Hrun as <- <-.
  destruct (seeks_In _ _ _ _ _ Hseeks Hin) as (q & w0 & w1 & _ & Hone).
  apply seekOne_inv in Hone as (sources & w2 & Hgather & Hsyn).
  split; [|exact (synthesizeKnowledge_source _ _ _ _ _ Hsyn)].
  destruct (synthesizeKnowledge_item _ _ _ _ _ Hsyn) as [_ ->].
  pose proof (gatherSources_web _ _ _ _ Hgather) as Hlow.
  pose proof (gatherSources_at_most_three _ _ _ _ Hgather) as Hhigh.
  unfold calculateConfidence.
  destruct (length (validSources sources)) as [|[|[|[|n]]]]; simpl; auto; lia.
Qed.

Lemma synthesis_tail_returns (query content : string) (valid : list Source.t) (w : W) :
  exists item w',
    (let! relatedTopics := AIProvider.extractRelatedTopics content in
     let! topic := AIProvider.extractMainTopic query in
     let! now := total Date_now in
     ret {| KnowledgeItem.query := query;
            KnowledgeItem.topic := topic;
            KnowledgeItem.content := content;
            KnowledgeItem.source := "Multi-source synthesis";
            KnowledgeItem.confidence := calculateConfidence valid;
            KnowledgeItem.timestamp := now;
            KnowledgeItem.relatedTopics := relatedTopics |}) w
    = (Ok item, w').
Proof.
  destruct (try_catch_returns
              (let! response := AIProvider.generateWithOpenAI
                 ("Extract related topics and concepts from this content. Return a JSON array of strings: "
                  ++ JS.dq ++ content ++ JS.dq)
                 "You are a topic extraction expert. Return only valid JSON."
                 "gpt-3.5-turbo" in
               of_outcome (JSON_parse response))
              (fun _ => []) w) as (related & w1 & Hrelated).
  change (AIProvider.extractRelatedTopics content w = (Ok related, w1)) in Hrelated.
  rewrite (bind_run _ _ _ _ _ Hrelated).
  destruct (try_catch_returns
              (let! response := AIProvider.generateWithOpenAI
                 ("What is the main topic or subject of this query? Return only the topic name: "
                  ++ JS.dq ++ query ++ JS.dq)
                 "You are a topic identification expert." "gpt-3.5-turbo" in
               ret (JS.trim response))
              (fun _ => query) w1) as (topic & w2 & Htopic).
  change (AIProvider.extractMainTopic query w1 = (Ok topic, w2)) in Htopic.
  rewrite (bind_run _ _ _ _ _ Htopic).
  unfold bind, total, ret. destruct (Date_now w2) as [now w3]. eauto.
Qed.

(** X8: the processing of a query fails in one way only: the gathering of
    its sources always returns, and the query is left out exactly when the
    chat completion that synthesizes the gathered sources throws; the thrown
    value and the world are then those of that call. *)
Theorem seekOne_fails_only_in_synthesis (query : string) (w w' : W) (e : exn) :
  seekOne query w = (Throw e, w')
  <-> exists sources w1,
        gatherSources query w = (Ok sources, w1)
        /\ AIProvider.synthesizeInformation query (validSources sources) w1
           = (Throw e, w').
Proof.
  destruct (gatherSources_returns query w) as (sources & w1 & Hgather).
  unfold seekOne. rewrite (bind_run _ _ _ _ _ Hgather). unfold synthesizeKnowledge.
  split.
  - intros H. exists sources, w1. split; [exact Hgather|].
    apply bind_Throw in H as [H | (content & w2 & _ & H)]; [exact H|].
    destruct (synthesis_tail_returns query content (validSources sources) w2)
      as (item & w3 & Htail).
    rewrite Htail in H. discriminate.
  - intros (sources' & w1' & Hgather' & Hthrow).
    rewrite Hgather in Hgather'. injection Hgather' as <- <-.
    now rewrite (bind_run_Throw _ _ _ _ _ Hthrow).
Qed.

(** X9: what [seekKnowledge] returns answers the queries in their order
    and each of them at most once: the queries of the returned items are
    the batch with some queries left out. *)
Theorem seekKnowledge_answers_in_order (queries : list string) (w w' : W)
    (items : list KnowledgeItem.t) :
  seekKnowledge queries w = (Ok items, w') ->
  sublist (map KnowledgeItem.query items) queries
  /\ (length items <= length queries)%nat.
Proof.
  unfold seekKnowledge. intros Hrun.
  destruct (seekLoop_seeks queries [] w) as (items' & w'' & Hloop & Hseeks).
  rewrite Hloop in Hrun. injection Hrun as <- <-.
  split; [exact (seeks_sublist _ _ _ _ Hseeks) | exact (seeks_length _ _ _ _ Hseeks)].
Qed.

Lemma seeks_run (queries : list string) (items : list KnowledgeItem.t) (w w' : W) :
  seeks queries w items w' ->
  forall acc, seekLoop queries acc w = (Ok (acc ++ items)%list, w').
Proof.
  induction 1 as [? | ? ? ? found ? ? ? Hone ? IH | ? ? ? ? ? ? ? Hone ? IH];
    intros acc; simpl.
  - now rewrite app_nil_r.
  - unfold bind at 1, try_catch, bind at 1. rewrite Hone. simpl.
    rewrite (IH (acc ++ [found])%list). now rewrite <- app_assoc.
  - unfold bind at 1, try_catch, bind at 1. rewrite Hone. simpl. apply IH.
Qed.

Lemma seeks_of_run (queries : list string) (items : list KnowledgeItem.t) (w w' : W) :
  seekKnowledge queries w = (Ok items, w') -> seeks queries w items w'.
Proof.
  unfold seekKnowledge. intros Hrun.
  destruct (seekLoop_seeks queries [] w) as (items0 & w0 & Hloop & Hseeks).
  rewrite Hloop in Hrun. now injection Hrun as <- <-.
Qed.

Lemma seeks_app (queries1 queries2 : list string) (items1 items2 : list KnowledgeItem.t)
    (w w1 w2 : W) :
  seeks queries1 w items1 w1 -> seeks queries2 w1 items2 w2 ->
  seeks (queries1 ++ queries2) w (items1 ++ items2) w2.
Proof.
  induction 1; intros Hrest; simpl; [exact Hrest | |].
  - eapply seeks_item; eauto.
  - eapply seeks_omit; eauto.
Qed.

(** X10: a batch can be cut anywhere: seeking [queries1 ++ queries2] is
    seeking [queries1] and then, in the world that this leaves, [queries2],
    and the items come out in that order. *)
Theorem seekKnowledge_app (queries1 queries2 : list string) (w w1 w2 : W)
    (items1 items2 : list KnowledgeItem.t) :
  seekKnowledge queries1 w = (Ok items1, w1) ->
  seekKnowledge queries2 w1 = (Ok items2, w2) ->
  seekKnowledge (queries1 ++ queries2) w = (Ok (items1 ++ items2)%list, w2).
Proof.
  intros H1 H2. apply seeks_of_run in H1, H2.
  exact (seeks_run _ _ _ _ (seeks_app _ _ _ _ _ _ _ H1 H2) []).
Qed.

Lemma expandLoop_returns (baseKnowledge acc : list KnowledgeItem.t) (w : W) :
  exists items w',
    expandLoop baseKnowledge acc w = (Ok (acc ++ items)%list, w')
    /\ (length items
        <= list_sum (map (fun item => length (KnowledgeItem.relatedTopics item))
                         baseKnowledge))%nat
    /\ forall found, In found items ->
         exists item topic,
           In item baseKnowledge /\ In topic (KnowledgeItem.relatedTopics item)
           /\ KnowledgeItem.query found
              = "How does " ++ topic ++ " relate to " ++ KnowledgeItem.topic item ++ "?".
Proof.
  revert acc w. induction baseKnowledge as [|item rest IH]; intros acc w; simpl.
  - exists [], w. rewrite app_nil_r. split; [reflexivity|]. split; [simpl; lia|].
    intros ? [].
  - unfold seekKnowledge.
    destruct (seekLoop_seeks
                (map (fun topic => "How does " ++ topic ++ " relate to "
                                     ++ KnowledgeItem.topic item ++ "?")
                     (KnowledgeItem.relatedTopics item)) [] w)
      as (more & w1 & Hloop & Hseeks).
    rewrite (bind_run _ _ _ _ _ Hloop). simpl.
    destruct (IH (acc ++ more)%list w1) as (items & w' & Hrest & Hlen & Hqueries).
    exists (more ++ items)%list, w'. split; [|split].
    + rewrite Hrest. now rewrite <- app_assoc.
    + rewrite length_app. apply seeks_length in Hseeks.
      rewrite length_map in Hseeks. lia.
    + intros found Hin. apply in_app_or in Hin as [Hin|Hin].
      * destruct (seeks_In _ _ _ _ _ Hseeks Hin) as (q & w0 & w2 & Hq & Hone).
        apply seekOne_inv in Hone as (sources & w3 & _ & Hsyn).
        apply synthesizeKnowledge_item in Hsyn as [-> _].
        apply in_map_iff in Hq as (topic & <- & Htopic).
        exists item, topic. repeat split; [now left | exact Htopic].
      * destruct (Hqueries found Hin) as (item' & topic & Hitem & Htopic & Hquery).
        exists item', topic. repeat split; [now right | exact Htopic | exact Hquery].
Qed.

(** X11: [expandKnowledge] never throws; it returns at most one item for
    each related topic of each base item (none for an empty base or for
    items without related topics), and each returned item answers the
    follow-up question that relates such a topic to the topic of its base
    item. *)
Theorem expandKnowledge_bounded (baseKnowledge : list KnowledgeItem.t) (w : W) :
  exists items w',
    expandKnowledge baseKnowledge w = (Ok items, w')
    /\ (length items
        <= list_sum (map (fun item => length (KnowledgeItem.relatedTopics item))
                         baseKnowledge))%nat
    /\ forall found, In found items ->
         exists item topic,
           In item baseKnowledge /\ In topic (KnowledgeItem.relatedTopics item)
           /\ KnowledgeItem.query found
              = "How does " ++ topic ++ " relate to " ++ KnowledgeItem.topic item ++ "?".
Proof. exact (expandLoop_returns baseKnowledge [] w). Qed.

End seeker_further.

Section seeker_runs.
Import KnowledgeSeeker.

Lemma seekKnowledge_confidence_values_witness :
  seekKnowledge ["quantum"] Scenario.informed
  = (Ok (match fst (seekKnowledge ["quantum"] Scenario.informed) with
         | Ok items => items
         | Throw _ => []
         end),
     snd (seekKnowledge ["quantum"] Scenario.informed))
  /\ forall item,
       In item (match fst (seekKnowledge ["quantum"] Scenario.informed) with
                | Ok items => items
                | Throw _ => []
                end) ->
       (KnowledgeItem.confidence item = 0.6%Q
        \/ KnowledgeItem.confidence item = 0.8%Q
        \/ KnowledgeItem.confidence item = 0.95%Q)
       /\ KnowledgeItem.source item = "Multi-source synthesis".
Proof.
  assert (seekKnowledge ["quantum"] Scenario.informed
          = (Ok (match fst (seekKnowledge ["quantum"] Scenario.informed) with
                 | Ok items => items
                 | Throw _ => []
                 end),
             snd (seekKnowledge ["quantum"] Scenario.informed))) as Hrun
    by (vm_compute; reflexivity).
  split; [exact Hrun|].
  intros item Hin.
  exact (seekKnowledge_confidence_values _ _ _ _ item Hrun Hin).
Defined.

Lemma seekKnowledge_answers_in_order_witness :
  seekKnowledge ["alpha"; "forbidden topic"; "beta"] Scenario.picky
  = (Ok (match fst (seekKnowledge ["alpha"; "forbidden topic"; "beta"] Scenario.picky) with
         | Ok items => items
         | Throw _ => []
         end),
     snd (seekKnowledge ["alpha"; "forbidden topic"; "beta"] Scenario.picky))
  /\ sublist
       (map KnowledgeItem.query
          (match fst (seekKnowledge ["alpha"; "forbidden topic"; "beta"] Scenario.picky) with
           | Ok items => items
           | Throw _ => []
           end))
       ["alpha"; "forbidden topic"; "beta"]
  /\ (length (match fst (seekKnowledge ["alpha"; "forbidden topic"; "beta"] Scenario.picky)
              with
              | Ok items => items
              | Throw _ => []
              end)
      <= length ["alpha"; "forbidden topic"; "beta"])%nat.
Proof.
  assert (seekKnowledge ["alpha"; "forbidden topic"; "beta"] Scenario.picky
          = (Ok (match fst (seekKnowledge ["alpha"; "forbidden topic"; "beta"] Scenario.picky)
                 with
                 | Ok items => items
                 | Throw _ => []
                 end),
             snd (seekKnowledge ["alpha"; "forbidden topic"; "beta"] Scenario.picky))) as Hrun
    by (vm_compute; reflexivity).
  split; [exact Hrun|].
  exact (seekKnowledge_answers_in_order _ _ _ _ Hrun).
Defined.

Lemma seekKnowledge_app_witness :
  seekKnowledge ["alpha"] Scenario.calm
  = (Ok [KnowledgeItem.mk "alpha" concepts_reply concepts_reply "Multi-source synthesis"
           0.8 1700000000000 ["entanglement"]],
     snd (seekKnowledge ["alpha"] Scenario.calm))
  /\ seekKnowledge ["beta"] (snd (seekKnowledge ["alpha"] Scenario.calm))
     = (Ok [KnowledgeItem.mk "beta" concepts_reply concepts_reply "Multi-source synthesis"
              0.8 1700000000001 ["entanglement"]],
        snd (seekKnowledge ["alpha"; "beta"] Scenario.calm))
  /\ seekKnowledge (["alpha"] ++ ["beta"]) Scenario.calm
     = (Ok ([KnowledgeItem.mk "alpha" concepts_reply concepts_reply "Multi-source synthesis"
               0.8 1700000000000 ["entanglement"]]
            ++ [KnowledgeItem.mk "beta" concepts_reply concepts_reply
                  "Multi-source synthesis" 0.8 1700000000001 ["entanglement"]])%list,
        snd (seekKnowledge ["alpha"; "beta"] Scenario.calm)).
Proof.
  assert (seekKnowledge ["alpha"] Scenario.calm
          = (Ok [KnowledgeItem.mk "alpha" concepts_reply concepts_reply
                   "Multi-source synthesis" 0.8 1700000000000 ["entanglement"]],
             snd (seekKnowledge ["alpha"] Scenario.calm))) as H1
    by (vm_compute; reflexivity).
  assert (seekKnowledge ["beta"] (snd (seekKnowledge ["alpha"] Scenario.calm))
          = (Ok [KnowledgeItem.mk "beta" concepts_reply concepts_reply
                   "Multi-source synthesis" 0.8 1700000000001 ["entanglement"]],
             snd (seekKnowledge ["alpha"; "beta"] Scenario.calm))) as H2
    by (vm_compute; reflexivity).
  split; [exact H1|]. split; [exact H2|].
  exact (seekKnowledge_app ["alpha"] ["beta"] _ _ _ _ _ H1 H2).
Defined.

End seeker_runs.

(** ** What never changes in the pool *)

Section evolution.
Context {W : Type} `{!World W}.
Import AgentOrchestrator.

#[global] Instance evolves_preorder : PreOrder evolves.
Proof.
  split.
  - intros a. unfold evolves. repeat split; reflexivity.
  - intros a b c (? & ? & ? & ? & ? & ? & ?) (? & ? & ? & ? & ? & ? & ?).
    unfold evolves. repeat split; try congruence. etransitivity; eassumption.
Qed.

#[global] Instance pool_evolves_preorder : PreOrder (pool_evolves (W := W)).
Proof.
  split.
  - intros s. unfold pool_evolves. reflexivity.
  - intros s1 s2 s3. unfold pool_evolves. intros H12 H23. etransitivity; eassumption.
Qed.

Lemma pool_evolves_same (s s' : System W) : agents s' = agents s -> pool_evolves s s'.
Proof. unfold pool_evolves. intros ->. reflexivity. Qed.

Lemma pool_evolves_assign (i : nat) (f : Agent.t -> Agent.t) (s : System W) :
  (forall a, evolves a (f a)) -> pool_evolves s (set_agents (alter f i) s).
Proof.
  intros Hf. unfold pool_evolves. simpl. generalize (agents s) i. clear s i.
  induction l as [|a l IH]; intros [|i]; simpl; constructor;
    first [apply Hf | reflexivity | apply IH].
Qed.

End evolution.

(** A leaf either leaves the agents alone or assigns within [evolves]. *)
Ltac evolve_leaf :=
  first
    [ apply pool_evolves_same; reflexivity
    | apply pool_evolves_assign; intros ?; unfold evolves; simpl;
      repeat split; try reflexivity; apply dom_insert_subseteq ].

Section pool_history.
Context {W : Type} `{!World W}.
Import AgentOrchestrator.

Lemma step_evolves (s s' : System W) : step s s' -> pool_evolves s s'.
Proof.
  intros [userId prompt context s0 r s1 Hrun _ | s0 r s1 Hrun | k s0 r s1 Hrun
         | k s0 r s1 Hrun].
  - assert (preserves pool_evolves (submitTask (W := W) userId prompt context)) as Hk
      by (unfold_orchestrator; preserve_with ltac:(evolve_leaf)).
    exact (Hk _ _ _ Hrun).
  - assert (preserves pool_evolves (tick_begin (W := W))) as Hk
      by (unfold_orchestrator; preserve_with ltac:(evolve_leaf)).
    exact (Hk _ _ _ Hrun).
  - assert (preserves pool_evolves (finishTask (W := W) k)) as Hk
      by (unfold_orchestrator; preserve_with ltac:(evolve_leaf)).
    exact (Hk _ _ _ Hrun).
  - assert (preserves pool_evolves (resumeCuriousExploration (W := W) k)) as Hk
      by (unfold_orchestrator; preserve_with ltac:(evolve_leaf)).
    exact (Hk _ _ _ Hrun).
Qed.

Lemma run_evolves (s s' : System W) : rtc step s s' -> pool_evolves s s'.
Proof.
  induction 1 as [|s1 s2 s3 Hstep _ IH]; [reflexivity|].
  etransitivity; [exact (step_evolves _ _ Hstep) | exact IH].
Qed.

Lemma evolves_columns (pool pool' : list Agent.t) :
  Forall2 evolves pool pool' ->
  map (fun a => (Agent.id a, Agent.name a, Agent.specialization a, Agent.curiosityLevel a))
      pool'
  = map (fun a => (Agent.id a, Agent.name a, Agent.specialization a, Agent.curiosityLevel a))
        pool.
Proof.
  induction 1 as [|a a' pool pool' (Hid & Hname & _ & Hspec & Hcur & _) _ IH];
    [reflexivity|].
  simpl. now rewrite Hid, Hname, Hspec, Hcur, IH.
Qed.

(** X12: in every reachable state [getAgentStatus] lists the four
    configured agents, in the order of their configuration and with the id,
    name, specialization and curiosity level they were created with:
    nothing that the process does adds, removes, reorders or reconfigures an
    agent. *)
Theorem getAgentStatus_lists_configured_agents (s : System W) :
  reachable s ->
  map (fun v => (view_id v, view_name v, view_specialization v, view_curiosityLevel v))
      (getAgentStatus s)
  = [ ("agent-aria", "Aria", ["research"; "analysis"; "data-mining"], 0.9%Q);
      ("agent-zephyr", "Zephyr", ["creative-writing"; "brainstorming"; "ideation"], 0.95%Q);
      ("agent-sage", "Sage", ["knowledge-synthesis"; "education"; "explanation"], 0.8%Q);
      ("agent-nova", "Nova", ["real-time-processing"; "quick-responses"; "multitasking"],
       0.85%Q) ].
Proof.
  intros (d & w & Hrun). apply run_evolves in Hrun.
  unfold getAgentStatus. rewrite map_map. simpl.
  rewrite (evolves_columns _ _ Hrun). reflexivity.
Qed.

(** X13: along every run of the process no agent forgets a key of its
    knowledge base: the agents keep their places and ids, every key an agent
    had filed is still filed later, and the knowledge-base size that
    [getAgentStatus] reports never goes down. *)
Theorem knowledge_never_shrinks (s s' : System W) :
  rtc step s s' ->
  Forall2
    (fun a a' => Agent.id a' = Agent.id a
                 /\ dom (Agent.knowledgeBase a) ⊆ dom (Agent.knowledgeBase a'))
    (agents s) (agents s')
  /\ Forall2
       (fun v v' => view_id v' = view_id v
                    /\ (view_knowledgeBaseSize v <= view_knowledgeBaseSize v')%nat)
       (getAgentStatus s) (getAgentStatus s').
Proof.
  intros Hrun. apply run_evolves in Hrun. unfold pool_evolves in Hrun.
  unfold getAgentStatus. split.
  - eapply Forall2_impl; [exact Hrun|].
    intros a a' (Hid & _ & _ & _ & _ & _ & Hdom). now split.
  - apply Forall2_fmap. eapply Forall2_impl; [exact Hrun|].
    intros a a' (Hid & _ & _ & _ & _ & _ & Hdom). simpl. split; [exact Hid|].
    rewrite <- !size_dom. now apply subseteq_size.
Qed.

End pool_history.

Section pool_history_runs.
Import AgentOrchestrator Scenario.

Lemma explored_run : rtc step fresh_start explored.
Proof.
  eapply rtc_l; [|eapply rtc_l; [|eapply rtc_l; [|apply rtc_refl]]].
  - apply (step_submit alice "research entanglement" JNull fresh_start
             (fst (submitTask alice "research entanglement" JNull fresh_start)) accepted).
    + unfold accepted. apply surjective_pairing.
    + intros task _. split.
      * intros i a Hi. apply start_agents in Hi as [_ ->]. discriminate.
      * intros t [].
  - apply (step_tick accepted (fst (tick_begin accepted)) started).
    unfold started. apply surjective_pairing.
  - apply (step_explore 0 started (fst (resumeCuriousExploration 0 started)) explored).
    unfold explored. apply surjective_pairing.
Qed.

Lemma getAgentStatus_lists_configured_agents_witness :
  reachable explored
  /\ map (fun v => (view_id v, view_name v, view_specialization v, view_curiosityLevel v))
         (getAgentStatus explored)
     = [ ("agent-aria", "Aria", ["research"; "analysis"; "data-mining"], 0.9%Q);
         ("agent-zephyr", "Zephyr", ["creative-writing"; "brainstorming"; "ideation"],
          0.95%Q);
         ("agent-sage", "Sage", ["knowledge-synthesis"; "education"; "explanation"], 0.8%Q);
         ("agent-nova", "Nova",
          ["real-time-processing"; "quick-responses"; "multitasking"], 0.85%Q) ].
Proof.
  split; [exact explored_reachable|].
  exact (getAgentStatus_lists_configured_agents explored explored_reachable).
Defined.

Lemma knowledge_never_shrinks_witness :
  rtc step fresh_start explored
  /\ Forall2
       (fun a a' => Agent.id a' = Agent.id a
                    /\ dom (Agent.knowledgeBase a) ⊆ dom (Agent.knowledgeBase a'))
       (agents fresh_start) (agents explored)
  /\ Forall2
       (fun v v' => view_id v' = view_id v
                    /\ (view_knowledgeBaseSize v <= view_knowledgeBaseSize v')%nat)
       (getAgentStatus fresh_start) (getAgentStatus explored).
Proof.
  split; [exact explored_run|].
  exact (knowledge_never_shrinks fresh_start explored explored_run).
Defined.

(** After the run Aria has filed what her attempt and her exploration
    found; the other agents know nothing. *)
Example knowledge_sizes_after_the_run :
  map view_knowledgeBaseSize (getAgentStatus fresh_start) = [0; 0; 0; 0]%nat
  /\ map view_knowledgeBaseSize (getAgentStatus explored) = [1; 0; 0; 0]%nat.
Proof. vm_compute. split; reflexivity. Qed.

End pool_history_runs.

(** ** Knowledge queries and the knowledge base *)

Section knowledge_base.
Context {W : Type} `{!World W}.
Import AgentOrchestrator.

(** X14: [generateKnowledgeQueries] never throws and changes nothing in the
    process; it returns three queries for each concept that
    [extractConcepts] finds in the prompt, among them the definition and the
    latest-developments query of the concept, and when the context carries
    no interests the relating query names them "undefined". *)
Theorem generateKnowledgeQueries_three_per_concept (prompt : string) (context : Context)
    (s : System W) :
  exists concepts w' queries,
    AIProvider.extractConcepts prompt (world s) = (Ok concepts, w')
    /\ generateKnowledgeQueries prompt context s = (Ok queries, set_world w' s)
    /\ length queries = (3 * length concepts)%nat
    /\ forall concept, In concept concepts ->
         In ("What is " ++ concept ++ "?") queries
         /\ In ("Latest developments in " ++ concept) queries
         /\ (userInterests context = None ->
             In ("How does " ++ concept ++ " relate to undefined?") queries).
Proof.
  destruct (try_catch_returns
              (let! response := AIProvider.generateWithOpenAI
                 ("Extract the main concepts and topics from this text. Return only a JSON array of strings: "
                  ++ JS.dq ++ prompt ++ JS.dq)
                 "You are a concept extraction expert. Return only valid JSON."
                 "gpt-3.5-turbo" in
               of_outcome (JSON_parse response))
              (fun _ => []) (world s)) as (concepts & w' & Hconcepts).
  change (AIProvider.extractConcepts prompt (world s) = (Ok concepts, w')) in Hconcepts.
  exists concepts, w'. eexists. split; [exact Hconcepts|]. split.
  - unfold generateKnowledgeQueries, bind, in_world. rewrite Hconcepts. reflexivity.
  - clear Hconcepts. split.
    + induction concepts as [|c concepts IH]; [reflexivity|]. simpl in *. lia.
    + intros concept Hin.
      induction concepts as [|c concepts IH]; [destruct Hin|].
      destruct Hin as [-> | Hin].
      * simpl. repeat split.
        -- now left.
        -- right. right. now left.
        -- intros ->. right. now left.
      * destruct (IH Hin) as (H1 & H2 & H3). simpl. repeat split.
        -- right. right. right. exact H1.
        -- right. right. right. exact H2.
        -- intros Hnone. right. right. right. exact (H3 Hnone).
Qed.

(** A loop whose body always returns runs to its end, and what the body
    keeps, step by step, holds at the end. *)
Lemma for_of_invariant {A} (l : list A) (body : A -> M (System W) unit)
    (I : list A -> System W -> Prop) (s : System W) :
  I [] s ->
  (forall done x s1, I done s1 ->
     exists s2, body x s1 = (Ok tt, s2) /\ I (done ++ [x])%list s2) ->
  exists s', for_of l body s = (Ok tt, s') /\ I l s'.
Proof.
  intros Hstart Hbody.
  enough (forall done s1, I done s1 ->
            exists s', for_of l body s1 = (Ok tt, s') /\ I (done ++ l)%list s') as Hall
    by exact (Hall [] s Hstart).
  induction l as [|x l IH]; intros done s1 HI; simpl.
  - exists s1. rewrite app_nil_r. now split.
  - destruct (Hbody done x s1 HI) as (s2 & Hrun & HI2).
    rewrite (bind_run _ _ _ _ _ Hrun).
    destruct (IH (done ++ [x])%list s2 HI2) as (s' & Hrest & HI').
    exists s'. split; [exact Hrest|]. now rewrite <- app_assoc in HI'.
Qed.

Lemma alter_after_insert {A} (f : A -> A) (i : nat) (x : A) (l : list A) :
  alter f i (<[i := x]> l) = <[i := f x]> l.
Proof.
  revert i. induction l as [|y l IH]; intros [|i]; simpl; try reflexivity.
  f_equal. apply IH.
Qed.

Lemma updateAgentKnowledge_run (i : nat) (knowledge : list KnowledgeItem.t)
    (s : System W) (a : Agent.t) :
  agents s !! i = Some a ->
  exists s' a1 w1,
    updateAgentKnowledge i knowledge s = (Ok tt, s')
    /\ filed a knowledge a1
    /\ world s' = snd (Math_random w1)
    /\ if Qlt_le_dec (fst (Math_random w1)) (Agent.curiosityLevel a) then
         agents s' = <[i := Agent.set_status learning a1]> (agents s)
         /\ explorations s'
            = (explorations s
               ++ [mkExploration i
                     (map (fun item => ("Tell me more about " ++ KnowledgeItem.topic item
                                          ++ " and its implications")%string)
                          knowledge)])%list
       else agents s' = <[i := a1]> (agents s) /\ explorations s' = explorations s.
Proof.
  intros Ha. unfold updateAgentKnowledge.
  match goal with
  | |- context [for_of ?l ?b] =>
      destruct (for_of_invariant l b
                  (fun done s1 =>
                     exists a1, agents s1 = <[i := a1]> (agents s)
                                /\ explorations s1 = explorations s
                                /\ filed a done a1) s)
        as (s1 & Hloop & a1 & Hagents & Hexp & Hfiled)
  end.
  - exists a. split; [symmetry; now apply list_insert_id|]. split; [reflexivity|].
    unfold filed. repeat split; [simpl; now rewrite (right_id_L ∅ (∪)) | auto].
  - intros done item s2 (a2 & Hagents & Hexp & Hst & Hcur & Hlevel & Hdom & Hentries).
    rewrite (bind_run _ _ _ _ _ (in_world_total Date_now s2)).
    unfold assign, modify. eexists. split; [reflexivity|].
    eexists. split; [|split; [exact Hexp|]].
    + simpl. rewrite Hagents. apply alter_after_insert.
    + unfold filed. simpl. repeat split; try assumption.
      * rewrite dom_insert_L, Hdom, map_app, list_to_set_app_L. simpl.
        fold (knowledge_key item). apply set_eq. intros key.
        rewrite !elem_of_union, elem_of_empty. tauto.
      * intros key entry Hlook. fold (knowledge_key item) in Hlook.
        destruct (decide (key = knowledge_key item)) as [->|Hne].
        -- rewrite lookup_insert_eq in Hlook. injection Hlook as <-. right.
           exists item. simpl. repeat split; try reflexivity.
           ++ apply in_or_app. right. now left.
           ++ destruct (Qeq_bool (KnowledgeItem.confidence item) 0) eqn:Hzero;
                [reflexivity | exact Hzero].
        -- rewrite lookup_insert_ne in Hlook by congruence.
           destruct (Hentries key entry Hlook) as [Hold | (item' & Hin & Hrest)];
             [now left|].
           right. exists item'. split; [apply in_or_app; now left | exact Hrest].
  - rewrite (bind_run _ _ _ _ _ Hloop).
    rewrite (bind_run _ _ _ _ _ (in_world_total Math_random s1)).
    unfold bind at 1, gets. simpl. rewrite Hagents.
    rewrite list_lookup_insert_eq by (now apply lookup_lt_Some in Ha). simpl.
    destruct Hfiled as (Hst & Hcur & Hlevel & Hdom & Hentries). rewrite Hlevel.
    exists (if Qlt_le_dec (fst (Math_random (world s1))) (Agent.curiosityLevel a)
            then snd (triggerCuriousExploration i knowledge
                        (set_world (snd (Math_random (world s1))) s1))
            else set_world (snd (Math_random (world s1))) s1), a1, (world s1).
    destruct (Qlt_le_dec (fst (Math_random (world s1))) (Agent.curiosityLevel a)).
    + split; [reflexivity|]. split; [unfold filed; auto|]. split; [reflexivity|].
      simpl. rewrite Hagents, Hexp. split; [apply alter_after_insert | reflexivity].
    + split; [reflexivity|]. split; [unfold filed; auto|]. split; [reflexivity|].
      simpl. now split.
Qed.

(** X15: [updateAgentKnowledge] never throws, and for an agent of the pool
    it files every item under its topic, or under its query when the topic
    is empty: afterwards the keys of the knowledge base are the old keys and
    the keys of the items, every entry is an old entry or is taken from an
    item with that key, and no filed entry has confidence 0.  The task that
    the agent holds is the same. *)
Theorem updateAgentKnowledge_files_every_item (i : nat) (knowledge : list KnowledgeItem.t)
    (s : System W) (a : Agent.t) :
  agents s !! i = Some a ->
  exists s' a',
    updateAgentKnowledge i knowledge s = (Ok tt, s')
    /\ agents s' = <[i := a']> (agents s)
    /\ Agent.currentTask a' = Agent.currentTask a
    /\ dom (Agent.knowledgeBase a')
       = dom (Agent.knowledgeBase a) ∪ list_to_set (map knowledge_key knowledge)
    /\ forall key entry, Agent.knowledgeBase a' !! key = Some entry ->
         Agent.knowledgeBase a !! key = Some entry
         \/ exists item, In item knowledge /\ knowledge_key item = key
              /\ KnowledgeItem.query entry = KnowledgeItem.query item
              /\ KnowledgeItem.content entry = KnowledgeItem.content item
              /\ Qeq_bool (KnowledgeItem.confidence entry) 0 = false.
Proof.
  intros Ha.
  destruct (updateAgentKnowledge_run i knowledge s a Ha)
    as (s' & a1 & w1 & Hrun & (Hst & Hcur & Hlevel & Hdom & Hentries) & _ & Hcase).
  destruct (Qlt_le_dec _ _); destruct Hcase as [Hagents _].
  - exists s', (Agent.set_status learning a1). simpl. auto.
  - exists s', a1. auto.
Qed.

(** X16: after filing, [updateAgentKnowledge] draws a random number: when it
    is below the agent's curiosity level the agent's status becomes
    [learning] and one exploration is started for it, with one follow-up
    query for each item; otherwise the status stays as it is and no
    exploration is started. *)
Theorem updateAgentKnowledge_curiosity (i : nat) (knowledge : list KnowledgeItem.t)
    (s : System W) (a : Agent.t) :
  agents s !! i = Some a ->
  exists s' a' w1,
    updateAgentKnowledge i knowledge s = (Ok tt, s')
    /\ agents s' !! i = Some a'
    /\ world s' = snd (Math_random w1)
    /\ if Qlt_le_dec (fst (Math_random w1)) (Agent.curiosityLevel a) then
         Agent.status a' = learning
         /\ explorations s'
            = (explorations s
               ++ [mkExploration i
                     (map (fun item => ("Tell me more about " ++ KnowledgeItem.topic item
                                          ++ " and its implications")%string)
                          knowledge)])%list
       else Agent.status a' = Agent.status a /\ explorations s' = explorations s.
Proof.
  intros Ha. pose proof (lookup_lt_Some _ _ _ Ha) as Hlt.
  destruct (updateAgentKnowledge_run i knowledge s a Ha)
    as (s' & a1 & w1 & Hrun & (Hst & _) & Hworld & Hcase).
  destruct (Qlt_le_dec (fst (Math_random w1)) (Agent.curiosityLevel a)) eqn:Hdraw;
    destruct Hcase as [Hagents Hexp].
  - exists s', (Agent.set_status learning a1), w1. rewrite Hdraw, Hagents.
    rewrite list_lookup_insert_eq by exact Hlt. auto.
  - exists s', a1, w1. rewrite Hdraw, Hagents.
    rewrite list_lookup_insert_eq by exact Hlt. auto.
Qed.

End knowledge_base.

Section knowledge_base_runs.
Import AgentOrchestrator.

Lemma updateAgentKnowledge_files_every_item_witness :
  agents Cases.quiet_start !! 0%nat = Some Scenario.aria
  /\ exists s' a',
       updateAgentKnowledge 0 [Cases.lone_item; Cases.wave_item] Cases.quiet_start
       = (Ok tt, s')
       /\ agents s' = <[0%nat := a']> (agents Cases.quiet_start)
       /\ Agent.currentTask a' = Agent.currentTask Scenario.aria
       /\ dom (Agent.knowledgeBase a')
          = dom (Agent.knowledgeBase Scenario.aria)
            ∪ list_to_set (map knowledge_key [Cases.lone_item; Cases.wave_item])
       /\ forall key entry, Agent.knowledgeBase a' !! key = Some entry ->
            Agent.knowledgeBase Scenario.aria !! key = Some entry
            \/ exists item, In item [Cases.lone_item; Cases.wave_item]
                 /\ knowledge_key item = key
                 /\ KnowledgeItem.query entry = KnowledgeItem.query item
                 /\ KnowledgeItem.content entry = KnowledgeItem.content item
                 /\ Qeq_bool (KnowledgeItem.confidence entry) 0 = false.
Proof.
  split; [reflexivity|].
  exact (updateAgentKnowledge_files_every_item 0 [Cases.lone_item; Cases.wave_item]
           Cases.quiet_start Scenario.aria eq_refl).
Defined.

Lemma updateAgentKnowledge_curiosity_witness :
  agents Scenario.fresh_start !! 0%nat = Some Scenario.aria
  /\ exists s' a' w1,
       updateAgentKnowledge 0 [Cases.wave_item] Scenario.fresh_start = (Ok tt, s')
       /\ agents s' !! 0%nat = Some a'
       /\ world s' = snd (Math_random w1)
       /\ if Qlt_le_dec (fst (Math_random w1)) (Agent.curiosityLevel Scenario.aria) then
            Agent.status a' = learning
            /\ explorations s'
               = (explorations Scenario.fresh_start
                  ++ [mkExploration 0
                        (map (fun item => ("Tell me more about " ++ KnowledgeItem.topic item
                                             ++ " and its implications")%string)
                             [Cases.wave_item])])%list
          else Agent.status a' = Agent.status Scenario.aria
               /\ explorations s' = explorations Scenario.fresh_start.
Proof.
  split; [reflexivity|].
  exact (updateAgentKnowledge_curiosity 0 [Cases.wave_item] Scenario.fresh_start
           Scenario.aria eq_refl).
Defined.

(** An item without a topic is filed under its query, and its confidence 0
    is replaced by 0.8. *)
Example item_without_topic :
  (fun a => KnowledgeItem.confidence <$> Agent.knowledgeBase a !! "stones")
    <$> agents (snd (updateAgentKnowledge 0 [Cases.lone_item] Cases.quiet_start)) !! 0%nat
  = Some (Some 0.8%Q).
Proof. vm_compute. reflexivity. Qed.

End knowledge_base_runs.

(** ** Explorations *)

Section exploring.
Context {W : Type} `{!World W}.
Import AgentOrchestrator.

Lemma in_world_run {A} (c : M W A) (s : System W) (r : outcome A) (w' : W) :
  c (world s) = (r, w') -> in_world c s = (r, set_world w' s).
Proof. unfold in_world. now intros ->. Qed.

Lemma resume_frame (k : nat) :
  preserves (keeps (fun s : System W => (taskQueue s, database s, io s, attempts s)))
            (resumeCuriousExploration k).
Proof. unfold_orchestrator. preserve. Qed.

(** X17: the continuation of a pending exploration never throws: it takes
    the exploration off the list, files what it finds, and leaves its agent
    with status [idle], holding the task it held before and knowing every
    key it knew; at most one new exploration of the same agent is started
    on the way, and the queue, the database, the channel and the suspended
    attempts are untouched. *)
Theorem resumeCuriousExploration_outcome (k : nat) (s : System W) (e : Exploration)
    (a : Agent.t) :
  explorations s !! k = Some e ->
  agents s !! explorer e = Some a ->
  exists s' a',
    resumeCuriousExploration k s = (Ok tt, s')
    /\ agents s' = <[explorer e := a']> (agents s)
    /\ Agent.status a' = idle
    /\ Agent.currentTask a' = Agent.currentTask a
    /\ dom (Agent.knowledgeBase a) ⊆ dom (Agent.knowledgeBase a')
    /\ (explorations s' = delete k (explorations s)
        \/ exists queries,
             explorations s'
             = (delete k (explorations s) ++ [mkExploration (explorer e) queries])%list)
    /\ taskQueue s' = taskQueue s /\ database s' = database s
    /\ io s' = io s /\ attempts s' = attempts s.
Proof.
  intros Hk Ha.
  assert (exists s', resumeCuriousExploration k s = (Ok tt, s')
            /\ exists a', agents s' = <[explorer e := a']> (agents s)
                 /\ Agent.status a' = idle
                 /\ Agent.currentTask a' = Agent.currentTask a
                 /\ dom (Agent.knowledgeBase a) ⊆ dom (Agent.knowledgeBase a')
                 /\ (explorations s' = delete k (explorations s)
                     \/ exists queries,
                          explorations s'
                          = (delete k (explorations s)
                             ++ [mkExploration (explorer e) queries])%list))
    as (s' & Hrun & a' & Hrest).
  { unfold resumeCuriousExploration. unfold bind at 1, gets. rewrite Hk.
    unfold bind at 1, modify.
    destruct (seekLoop_seeks (followUpQueries e) [] (world s)) as (found & w1 & Hloop & _).
    rewrite (bind_run _ _ _ _ _
               (in_world_run (KnowledgeSeeker.seekKnowledge (followUpQueries e))
                  (set_explorations (delete k) s) _ _ Hloop)).
    destruct (updateAgentKnowledge_run (explorer e) found
                (set_world w1 (set_explorations (delete k) s)) a Ha)
      as (s2 & a1 & w2 & Hupdate & (Hst & Hcur & _ & Hdom & _) & _ & Hcase).
    rewrite (bind_run _ _ _ _ _ Hupdate). unfold assign, modify.
    eexists. split; [reflexivity|]. simpl.
    destruct (Qlt_le_dec _ _); destruct Hcase as [Hagents Hexp]; rewrite Hagents, Hexp.
    - exists (Agent.set_status idle (Agent.set_status learning a1)).
      split; [apply alter_after_insert|]. simpl. repeat split; auto.
      + rewrite Hdom. apply union_subseteq_l.
      + right. eauto.
    - exists (Agent.set_status idle a1).
      split; [apply alter_after_insert|]. simpl. repeat split; auto.
      rewrite Hdom. apply union_subseteq_l. }
  pose proof (resume_frame k _ _ _ Hrun) as Hframe. unfold keeps in Hframe.
  injection Hframe as Hq Hd Hio Hat.
  exists s', a'. destruct Hrest as (? & ? & ? & ? & ?). repeat split; assumption.
Qed.

End exploring.

Section exploring_runs.
Import AgentOrchestrator Scenario.

Lemma resumeCuriousExploration_outcome_witness :
  explorations started !! 0%nat
  = Some (mkExploration 0 ["Tell me more about " ++ concepts_reply ++ " and its implications";
                           "Tell me more about " ++ concepts_reply ++ " and its implications";
                           "Tell me more about " ++ concepts_reply ++ " and its implications"])
  /\ agents started !! 0%nat = Some (default aria (agents started !! 0%nat))
  /\ exists s' a',
       resumeCuriousExploration 0 started = (Ok tt, s')
       /\ agents s' = <[0%nat := a']> (agents started)
       /\ Agent.status a' = idle
       /\ Agent.currentTask a' = Agent.currentTask (default aria (agents started !! 0%nat))
       /\ dom (Agent.knowledgeBase (default aria (agents started !! 0%nat)))
          ⊆ dom (Agent.knowledgeBase a')
       /\ (explorations s' = delete 0%nat (explorations started)
           \/ exists queries,
                explorations s'
                = (delete 0%nat (explorations started) ++ [mkExploration 0 queries])%list)
       /\ taskQueue s' = taskQueue started /\ database s' = database started
       /\ io s' = io started /\ attempts s' = attempts started.
Proof.
  assert (explorations started !! 0%nat
          = Some (mkExploration 0
                    ["Tell me more about " ++ concepts_reply ++ " and its implications";
                     "Tell me more about " ++ concepts_reply ++ " and its implications";
                     "Tell me more about " ++ concepts_reply ++ " and its implications"]))
    as Hk by (vm_compute; reflexivity).
  assert (agents started !! 0%nat = Some (default aria (agents started !! 0%nat)))
    as Ha by (vm_compute; reflexivity).
  split; [exact Hk|]. split; [exact Ha|].
  exact (resumeCuriousExploration_outcome 0 started _ _ Hk Ha).
Defined.

End exploring_runs.

(** ** Attempts and timer firings, further *)

Section attempts_further.
Context {W : Type} `{!World W}.
Import AgentOrchestrator.

Lemma processTask_frame (task : AgentTask.t) :
  preserves (keeps (fun s : System W => (taskQueue s, attempts s))) (processTask task).
Proof. unfold_orchestrator. preserve. Qed.

Lemma processTask_one_event (task : AgentTask.t) (s : System W) :
  exists s' ev,
    processTask task s = (Ok tt, s')
    /\ io s' = (io s ++ [ev])%list
    /\ room ev = "user-" ++ AgentTask.userId task
    /\ ((exists s1 result name,
           processTask_try task s = (Ok tt, s1)
           /\ event ev = "task-progress"
           /\ args ev = TaskProgress (AgentTask.id task) "completed" result name)
        \/ (exists e s1,
              processTask_try task s = (Throw e, s1)
              /\ event ev = "task-error"
              /\ args ev = TaskError (AgentTask.id task) (published_error e)))
    /\ taskQueue s' = taskQueue s /\ attempts s' = attempts s.
Proof.
  assert (exists s' ev,
            processTask task s = (Ok tt, s')
            /\ io s' = (io s ++ [ev])%list
            /\ room ev = "user-" ++ AgentTask.userId task
            /\ ((exists s1 result name,
                   processTask_try task s = (Ok tt, s1)
                   /\ event ev = "task-progress"
                   /\ args ev = TaskProgress (AgentTask.id task) "completed" result name)
                \/ (exists e s1,
                      processTask_try task s = (Throw e, s1)
                      /\ event ev = "task-error"
                      /\ args ev = TaskError (AgentTask.id task) (published_error e))))
    as (s' & ev & Hrun & Hrest).
  { unfold processTask, try_catch.
    destruct (processTask_try task s) as [[[]|e] s1] eqn:Htry.
    - pose proof Htry as Hparts. unfold processTask_try in Hparts.
      apply bind_Ok in Hparts as (gathered & s0 & Hgather & Hfinish).
      apply gather_keeps_io in Hgather. unfold keeps in Hgather.
      apply finish_Ok in Hfinish as (_ & (result & name & Hio) & _).
      rewrite Hgather in Hio.
      eexists _, _. split; [reflexivity|]. split; [exact Hio|]. split; [reflexivity|].
      left. exists s1, result, name. auto.
    - destruct (processTask_try_Throw _ _ _ _ Htry) as [Hio _].
      unfold processTask_catch, emit, modify.
      eexists _, _. split; [reflexivity|]. simpl. rewrite Hio.
      split; [reflexivity|]. split; [reflexivity|].
      right. exists e, s1. repeat split. }
  pose proof (processTask_frame task _ _ _ Hrun) as Hframe. unfold keeps in Hframe.
  injection Hframe as Hq Hat.
  exists s', ev. destruct Hrest as (? & ? & ?). repeat split; assumption.
Qed.

(** X18: [processTask] never throws, and every call publishes exactly one
    event, on the channel of the user who owns the task: [task-progress]
    with status "completed" when the [try] block runs to its end, and
    [task-error] with the message of the thrown value otherwise.  The task
    queue is not touched. *)
Theorem processTask_publishes_once (task : AgentTask.t) (s : System W) :
  exists s' ev,
    processTask task s = (Ok tt, s')
    /\ io s' = (io s ++ [ev])%list
    /\ room ev = "user-" ++ AgentTask.userId task
    /\ ((exists s1 result name,
           processTask_try task s = (Ok tt, s1)
           /\ event ev = "task-progress"
           /\ args ev = TaskProgress (AgentTask.id task) "completed" result name)
        \/ (exists e s1,
              processTask_try task s = (Throw e, s1)
              /\ event ev = "task-error"
              /\ args ev = TaskError (AgentTask.id task) (published_error e)))
    /\ taskQueue s' = taskQueue s /\ attempts s' = attempts s.
Proof. apply processTask_one_event. Qed.

Lemma others_untouched_alter (i : nat) (F : Agent.t -> Agent.t) (s s' : System W) :
  agents s' = alter F i (agents s) -> others_untouched i s s'.
Proof.
  intros Halter. unfold others_untouched. rewrite Halter. split; [apply length_alter|].
  intros j Hne. apply list_lookup_alter_ne. congruence.
Qed.

(** X19: an attempt changes no agent but the one it selects: when
    [selectAgent] picks the agent at position [i], the pool after
    [processTask] has the same size and every other agent object is as it
    was, whether the attempt succeeds or fails; when no agent is idle the
    pool is as it was. *)
Theorem processTask_touches_one_agent (task : AgentTask.t) (s : System W) :
  match selectFrom (agents s) task with
  | Some i => others_untouched i s (snd (processTask task s))
  | None => agents (snd (processTask task s)) = agents s
  end.
Proof.
  unfold processTask, try_catch.
  destruct (selectFrom (agents s) task) as [i|] eqn:Hsel.
  - assert (exists F, agents (snd (processTask_try task s)) = alter F i (agents s))
      as [F HF].
    { unfold processTask_try, bind.
      destruct (processTask_gather task s) as [[gathered|e] s0] eqn:Hgather.
      - destruct (gather_some _ _ _ _ _ Hsel Hgather) as [(F & HF & _) Hi].
        specialize (Hi gathered eq_refl).
        destruct (processTask_finish task gathered.1.1 gathered.1.2 gathered.2 s0)
          as [[[]|e] s1] eqn:Hfinish; simpl.
        + apply finish_Ok in Hfinish as (Hagents & _). rewrite Hi in Hagents.
          rewrite Hagents, HF. rewrite list_alter_alter_eq. eauto.
        + apply finish_Throw in Hfinish as (Hagents & _). rewrite Hagents. eauto.
      - destruct (gather_some _ _ _ _ _ Hsel Hgather) as [(F & HF & _) _]. eauto. }
    destruct (processTask_try task s) as [[[]|e] s1]; simpl in *.
    + exact (others_untouched_alter _ _ _ _ HF).
    + exact (others_untouched_alter i F s
               (set_io (fun log => (log ++ [_])%list) s1) HF).
  - unfold processTask_try. rewrite (bind_run_Throw _ _ _ _ _ (gather_none _ _ Hsel)).
    reflexivity.
Qed.

Lemma result_stored_row (task : AgentTask.t) (d d' : Db.t) :
  result_stored task d d' ->
  match Db.tasks d !! AgentTask.id task with
  | Some row =>
      Db.users d' = Db.users d
      /\ (exists row', Db.tasks d' !! AgentTask.id task = Some row'
            /\ Db.status row' = "completed" /\ is_Some (Db.result row')
            /\ Db.user_id row' = Db.user_id row /\ Db.prompt row' = Db.prompt row
            /\ Db.created_at row' = Db.created_at row)
      /\ forall k, k <> AgentTask.id task -> Db.tasks d' !! k = Db.tasks d !! k
  | None => d' = d
  end.
Proof.
  intros (now & result & res & Hexec). rewrite execute_update in Hexec.
  destruct (Db.tasks d !! AgentTask.id task) as [row|].
  - injection Hexec as _ <-. simpl. split; [reflexivity|]. split.
    + eexists. rewrite lookup_insert_eq. split; [reflexivity|]. simpl. eauto.
    + intros k Hne. now rewrite lookup_insert_ne by congruence.
  - now injection Hexec as _ <-.
Qed.

Lemma taskStatus_answer (taskId userId : string) (s s' : System W)
    (answer : option string) :
  taskStatus taskId userId s = (Ok answer, s') ->
  answer = match Db.tasks (database s) !! taskId with
           | Some row =>
               if String.eqb (Db.user_id row) userId then Some (Db.status row) else None
           | None => None
           end
  /\ database s' = database s.
Proof.
  unfold taskStatus. intros H. apply bind_Ok in H as (result & s1 & Hquery & H).
  unfold ret in H. injection H as <- <-.
  apply query_database in Hquery as [[_ [e [=]]] | [now Hexec]].
  rewrite execute_select in Hexec.
  destruct (Db.tasks (database s) !! taskId) as [row|].
  - destruct (String.eqb (Db.user_id row) userId); injection Hexec as <- <-; now split.
  - injection Hexec as <- <-; now split.
Qed.


(** X21: the result of a task without a row is lost without a trace: when
    the table has no row for the task (the INSERT of its submission failed
    after the task was queued), an attempt whose [try] block runs to its end
    leaves the database as it was and still publishes the completion. *)
Theorem unpersisted_task_completes_unrecorded (task : AgentTask.t) (s s' : System W) :
  processTask_try task s = (Ok tt, s') ->
  Db.tasks (database s) !! AgentTask.id task = None ->
  database s' = database s
  /\ exists result name,
       io s' = (io s ++ [mkEmitted ("user-" ++ AgentTask.userId task) "task-progress"
                           (TaskProgress (AgentTask.id task) "completed" result name)])%list.
Proof.
  intros Htry Hrow. unfold processTask_try in Htry.
  apply bind_Ok in Htry as (gathered & s0 & Hgather & Hfinish).
  pose proof (gather_keeps_database _ _ _ _ Hgather) as Hdb.
  pose proof (gather_keeps_io _ _ _ _ Hgather) as Hio. unfold keeps in Hdb, Hio.
  apply finish_Ok in Hfinish as (_ & (result & name & Hevent) & Hstored).
  rewrite Hdb in Hstored. apply result_stored_row in Hstored. rewrite Hrow in Hstored.
  split; [exact Hstored|]. exists result, name. now rewrite <- Hio.
Qed.

(** X22: a firing of the timer never throws.  Either it takes no task (the
    queue is empty or its store is out of reach) and then it changes
    neither the queue, the pool, the database nor the channel; or it takes
    the task at the head of the queue and publishes exactly one event for
    it, on the channel of the task's user. *)
Theorem tick_takes_at_most_one_task (s : System W) :
  exists s',
    tick s = (Ok tt, s')
    /\ ((taskQueue s' = taskQueue s /\ agents s' = agents s
         /\ database s' = database s /\ io s' = io s)
        \/ exists task ev,
             taskQueue s = task :: taskQueue s'
             /\ io s' = (io s ++ [ev])%list
             /\ room ev = "user-" ++ AgentTask.userId task).
Proof.
  unfold tick, try_catch.
  destruct (TaskQueue.getNextTask s) as [[[task|]|e] sq] eqn:Hq.
  - rewrite (bind_run _ _ _ _ _ Hq).
    apply getNextTask_effect in Hq as (_ & _ & Hio & Hqueue).
    destruct (processTask_one_event task sq)
      as (s' & ev & Hrun & Hev & Hroom & _ & Hsame & _).
    rewrite Hrun. exists s'. split; [reflexivity|]. right. exists task, ev.
    rewrite Hsame, Hev, Hio. auto.
  - rewrite (bind_run _ _ _ _ _ Hq).
    apply getNextTask_effect in Hq as (? & ? & ? & ?).
    exists sq. split; [reflexivity|]. left. auto.
  - rewrite (bind_run_Throw _ _ _ _ _ Hq).
    apply getNextTask_effect in Hq as (? & ? & ? & ?).
    exists sq. split; [reflexivity|]. left. auto.
Qed.

(** X23: a firing of the timer with an empty queue, or while the queue's
    store is out of reach, changes nothing in the process: the error of the
    store is swallowed, and only the outside world has moved on. *)
Theorem tick_without_task_changes_nothing (s : System W) :
  taskQueue s = [] \/ (exists e w1, store_fault Redis (world s) = (Some e, w1)) ->
  exists w', tick s = (Ok tt, set_world w' s).
Proof.
  intros Hcase. unfold tick, try_catch, TaskQueue.getNextTask, reach.
  unfold bind at 1 2 3. rewrite in_world_total.
  destruct (store_fault Redis (world s)) as [[e|] w1] eqn:Hfault; simpl.
  - exists w1. reflexivity.
  - destruct Hcase as [Hempty | (e & w2 & [=])].
    unfold ret, bind, gets. simpl. rewrite Hempty. exists w1. reflexivity.
Qed.

End attempts_further.

Section attempts_further_runs.
Import AgentOrchestrator Scenario.


Lemma unpersisted_task_completes_unrecorded_witness :
  processTask_try task1 (start db0 calm)
  = (Ok tt, snd (processTask_try task1 (start db0 calm)))
  /\ Db.tasks (database (start db0 calm)) !! AgentTask.id task1 = None
  /\ database (snd (processTask_try task1 (start db0 calm))) = database (start db0 calm)
  /\ exists result name,
       io (snd (processTask_try task1 (start db0 calm)))
       = (io (start db0 calm)
          ++ [mkEmitted ("user-" ++ AgentTask.userId task1) "task-progress"
                (TaskProgress (AgentTask.id task1) "completed" result name)])%list.
Proof.
  assert (processTask_try task1 (start db0 calm)
          = (Ok tt, snd (processTask_try task1 (start db0 calm)))) as Htry
    by (vm_compute; reflexivity).
  assert (Db.tasks (database (start db0 calm)) !! AgentTask.id task1 = None) as Hrow
    by (vm_compute; reflexivity).
  split; [exact Htry|]. split; [exact Hrow|].
  exact (unpersisted_task_completes_unrecorded task1 (start db0 calm) _ Htry Hrow).
Defined.

Lemma tick_without_task_changes_nothing_witness :
  (taskQueue Cases.quiet_start = []
   \/ (exists e w1, store_fault Redis (world Cases.quiet_start) = (Some e, w1)))
  /\ exists w', tick Cases.quiet_start = (Ok tt, set_world w' Cases.quiet_start).
Proof.
  assert (taskQueue Cases.quiet_start = []
          \/ (exists e w1, store_fault Redis (world Cases.quiet_start) = (Some e, w1)))
    as Hcase by (left; reflexivity).
  split; [exact Hcase|].
  exact (tick_without_task_changes_nothing Cases.quiet_start Hcase).
Defined.

(** While the queue's store is out of reach the waiting task stays where
    it is and nobody is told. *)
Example tick_during_outage :
  taskQueue (snd (tick (submitted Cases.cut_off))) = [task1]
  /\ io (snd (tick (submitted Cases.cut_off))) = []
  /\ fst (tick (submitted Cases.cut_off)) = Ok tt.
Proof. vm_compute. repeat split; reflexivity. Qed.

End attempts_further_runs.

(** ** Submissions and status queries, further *)

Section submission_further.
Context {W : Type} `{!World W}.
Import AgentOrchestrator.

Lemma submitTask_frame (userId prompt : string) (context : json) :
  preserves (keeps (fun s : System W => (agents s, io s, explorations s, attempts s)))
            (submitTask userId prompt context).
Proof. unfold_orchestrator. preserve. Qed.

(** X24: a submission never changes a row that is in the table, whatever
    id it makes up and whether it returns or throws, and it leaves the
    [users] table, the agent pool, the channel, the explorations and the
    suspended attempts as they are; it adds at most one task to the queue,
    at its end. *)
Theorem submitTask_never_overwrites (userId prompt : string) (context : json)
    (s : System W) :
  (forall k row,
     Db.tasks (database s) !! k = Some row ->
     Db.tasks (database (snd (submitTask userId prompt context s))) !! k = Some row)
  /\ Db.users (database (snd (submitTask userId prompt context s)))
     = Db.users (database s)
  /\ (exists added,
        taskQueue (snd (submitTask userId prompt context s))
        = (taskQueue s ++ added)%list
        /\ (length added <= 1)%nat)
  /\ agents (snd (submitTask userId prompt context s)) = agents s
  /\ io (snd (submitTask userId prompt context s)) = io s
  /\ explorations (snd (submitTask userId prompt context s)) = explorations s
  /\ attempts (snd (submitTask userId prompt context s)) = attempts s.
Proof.
  destruct (submitTask userId prompt context s) as [r s'] eqn:Hrun. simpl.
  pose proof (submitTask_frame userId prompt context _ _ _ Hrun) as Hframe.
  unfold keeps in Hframe. injection Hframe as Hagents Hio Hexp Hatt.
  apply submitTask_effect in Hrun
    as (task & _ & _ & _ & _ & _ & _ & _
        & [(_ & Hq & Hd) | [(_ & Hq & Hd) | (_ & Hq & now & res & Hexec)]]).
  - rewrite Hd. repeat split; auto. exists []. rewrite app_nil_r. split; [exact Hq | simpl; lia].
  - rewrite Hd. repeat split; auto. exists [task]. split; [exact Hq | simpl; lia].
  - unfold inserted in Hexec. rewrite execute_insert in Hexec.
    destruct (bool_decide _); [|discriminate].
    destruct (Db.tasks (database s) !! AgentTask.id task) eqn:Hfree; [discriminate|].
    injection Hexec as _ <-. simpl. repeat split; auto.
    + intros k row Hk. rewrite lookup_insert_ne; [exact Hk | congruence].
    + exists [task]. split; [exact Hq | simpl; lia].
Qed.

Lemma taskStatus_frame (taskId userId : string) :
  preserves (keeps (fun s : System W =>
                      (agents s, explorations s, attempts s, taskQueue s, io s)))
            (taskStatus taskId userId).
Proof. unfold_orchestrator. preserve. Qed.

(** X25: a status query that returns answers with the status column of the
    task's row exactly when the row exists and belongs to the caller: the
    task of another user is answered like a task that does not exist.  The
    query changes nothing in the process. *)
Theorem taskStatus_shows_own_tasks_only (taskId userId : string) (s s' : System W)
    (answer : option string) :
  taskStatus taskId userId s = (Ok answer, s') ->
  (forall status,
     answer = Some status
     <-> exists row, Db.tasks (database s) !! taskId = Some row
           /\ Db.user_id row = userId /\ Db.status row = status)
  /\ s' = set_world (world s') s.
Proof.
  intros Hrun.
  pose proof (taskStatus_frame taskId userId _ _ _ Hrun) as Hframe.
  unfold keeps in Hframe. injection Hframe as Hagents Hexp Hatt Hq Hio.
  apply taskStatus_answer in Hrun as [-> Hdb]. split.
  - intros status. destruct (Db.tasks (database s) !! taskId) as [row|].
    + destruct (String.eqb (Db.user_id row) userId) eqn:Huser.
      * apply String.eqb_eq in Huser. split.
        -- intros [= <-]. now exists row.
        -- intros (row' & [= <-] & _ & <-). reflexivity.
      * apply String.eqb_neq in Huser. split; [discriminate|].
        intros (row' & [= <-] & Hsame & _). contradiction.
    + split; [discriminate|]. intros (row' & [=] & _).
  - destruct s, s'. simpl in *. now subst.
Qed.

End submission_further.

Section submission_further_runs.
Import AgentOrchestrator Scenario.

Lemma taskStatus_shows_own_tasks_only_witness :
  taskStatus "task-1" alice Cases.quiet_start
  = (Ok (Some "pending"), snd (taskStatus "task-1" alice Cases.quiet_start))
  /\ (forall status,
        Some "pending" = Some status
        <-> exists row, Db.tasks (database Cases.quiet_start) !! "task-1" = Some row
              /\ Db.user_id row = alice /\ Db.status row = status)
  /\ snd (taskStatus "task-1" alice Cases.quiet_start)
     = set_world (world (snd (taskStatus "task-1" alice Cases.quiet_start)))
         Cases.quiet_start.
Proof.
  assert (taskStatus "task-1" alice Cases.quiet_start
          = (Ok (Some "pending"), snd (taskStatus "task-1" alice Cases.quiet_start)))
    as Hrun by (vm_compute; reflexivity).
  split; [exact Hrun|].
  exact (taskStatus_shows_own_tasks_only "task-1" alice Cases.quiet_start _ _ Hrun).
Defined.

(** Somebody else who asks for Alice's task is told nothing. *)
Example another_users_task_looks_missing :
  fst (taskStatus "task-1" stranger Cases.quiet_start) = Ok None
  /\ fst (taskStatus "task-9" alice Cases.quiet_start) = Ok None.
Proof. vm_compute. split; reflexivity. Qed.

(** One follow-up query for each related topic; an item without related
    topics contributes none. *)
Example expansion_of_two_items :
  KnowledgeItem.query
    <$> match fst (KnowledgeSeeker.expandKnowledge [Cases.wave_item; Cases.lone_item] calm)
        with
        | Ok items => items
        | Throw _ => []
        end
  = ["How does light relate to waves?"; "How does sound relate to waves?"].
Proof. vm_compute. reflexivity. Qed.

End submission_further_runs.
